(** * The staged-execution engine of jest-coverage-report-action

    A shallow embedding of [src/run.ts] (the pipeline) together with the
    two utilities it drives, [utils/DataCollector] (the result
    accumulator) and [utils/runStage] (the stage runner).

    - A collector is a JavaScript object handed around by reference, so
      collectors live in a heap indexed by references; [run] works on the
      collector it is given and allocates a second, disposable one.
    - A stage body is a computation that may return, call [skip()] or
      throw; it is a state transformer over the world returning a
      [Completion].
    - The collaborators imported by [run.ts] (option resolution, coverage
      collection, report creation, the REST client, ...) are opaque: they
      are fields of a record [Collaborators].  A collaborator that is
      handed a collector can use it only through its methods, so its
      effect on that collector is the sequence of method calls it issues.
      Collaborators are taken to return (a hung collaborator hangs the
      pipeline and is outside this development); [console.log] output is
      not modelled.
    - The failure marker of the host process ([setFailed]) is a field of
      the world that only the final step of [run] writes; collaborators
      act on the outside world [Ext] and on the collector they are
      handed. *)

From stdpp Require Import gmap strings list fin_maps.

Open Scope string_scope.
Open Scope list_scope.

(** ** Data model *)

(** The cause of a failure is opaque to the engine; it is kept as the
    text of the failure. *)
Definition Cause : Type := string.

(** An error record, [{stage, cause}]. *)
Record ErrorRecord : Type := mkError { stage : string; cause : Cause }.

(** A partial-result object: named fields with opaque contents. *)
Definition Partial : Type := gmap string string.
Definition JsonReport : Type := Partial.

(** The state of one accumulator. *)
Record Collector : Type := mkCollector {
  errors : list ErrorRecord;
  fields : gmap string string
}.

Definition emptyCollector : Collector :=
  {| errors := []; fields := ∅ |}.

(** [typings/Options]: the fields [run.ts] reads. *)
Record Options : Type := mkOptions {
  token : string;
  coverageFile : option string;
  baseCoverageFile : option string;
  skipStep : string;
  annotations : string
}.

(** [SummaryReport]: the fields [run.ts] reads. *)
Record SummaryReport : Type := mkSummary {
  text : string;
  runReport : string
}.

Definition Annotation : Type := string.
Definition CheckPayload : Type := string.
Definition Octokit : Type := string.
Definition Repo : Type := string.

(** [context.payload.pull_request.base]; [base_ref] is its [ref]. *)
Record Base : Type := mkBase { base_ref : option string }.

(** [context.payload.pull_request]: the payload type gives it no [base]
    of its own, so [base] may be missing. *)
Record PullRequest : Type := mkPR { base : option Base }.

(** [@actions/github]'s [context]. *)
Record Context : Type := mkContext {
  eventName : string;
  pull_request : option PullRequest;
  repo : Repo
}.

(** How a computation ends: it returns a value, it called [skip()], or it
    threw (an async body that rejects is a body that threw). *)
Inductive Completion (A : Type) : Type :=
| Returned (a : A)
| Skipped
| Threw (c : Cause).
Arguments Returned {A} a.
Arguments Skipped {A}.
Arguments Threw {A} c.

(** A method call on a collector. *)
Inductive CollectorOp : Type :=
| OpAdd (partial : Partial)
| OpError (stage : string) (cause : Cause).

(** JavaScript truthiness of a [string | undefined]. *)
Definition truthy (s : option string) : bool :=
  match s with
  | None => false
  | Some s => negb (String.eqb s "")
  end.

(** [Array.prototype.includes] on an array of strings. *)
Fixpoint includes (l : list string) (x : string) : bool :=
  match l with
  | [] => false
  | y :: l => String.eqb y x || includes l x
  end.

(** The cause of dereferencing [undefined] ([summaryReport!.text]). *)
Definition typeErrorUndefined : Cause :=
  "TypeError: Cannot read properties of undefined".

Section Engine.

Context {Ext : Type}.

(** ** The world *)

Definition Ref : Type := positive.

Record World : Type := mkWorld {
  heap : gmap positive Collector;
  ext : Ext;
  invoked : list string;
  hostFailure : option string
}.

Definition setHeap (h : gmap positive Collector) (w : World) : World :=
  {| heap := h; ext := ext w; invoked := invoked w;
     hostFailure := hostFailure w |}.

Definition setExt (e : Ext) (w : World) : World :=
  {| heap := heap w; ext := e; invoked := invoked w;
     hostFailure := hostFailure w |}.

Definition logStage (name : string) (w : World) : World :=
  {| heap := heap w; ext := ext w; invoked := invoked w ++ [name];
     hostFailure := hostFailure w |}.

(** [setFailed(message)] of [@actions/core]. *)
Definition markFailed (message : string) (w : World) : World :=
  {| heap := heap w; ext := ext w; invoked := invoked w;
     hostFailure := Some message |}.

(** ** Computations *)

Definition M (A : Type) : Type := World -> Completion A * World.

Definition ret {A} (a : A) : M A := fun w => (Returned a, w).

Definition bind {A B} (m : M A) (k : A -> M B) : M B :=
  fun w =>
    match m w with
    | (Returned a, w') => k a w'
    | (Skipped, w') => (Skipped, w')
    | (Threw c, w') => (Threw c, w')
    end.

Definition throw {A} (c : Cause) : M A := fun w => (Threw c, w).

(** The type of [skip]'s result, TypeScript's [never]. *)
Definition never : Type := Empty_set.

Definition absurd {A} (x : never) : A := match x with end.

(** ** The accumulator ([utils/DataCollector]) *)

(** Modelled from the spec: [utils/DataCollector] is not among the
    sources.  [add(partial)] merges a partial result into the state, the
    fields of [partial] overwriting same-named fields (last write wins);
    the error list never passes through [add] (spec 4.1). *)
Definition collectorAdd (partial : Partial) (c : Collector) : Collector :=
  {| errors := errors c; fields := partial ∪ fields c |}.

(** Modelled from the spec: [utils/DataCollector] is not among the
    sources.  [addError(stage, cause)] appends one error record; it never
    fails and never rolls back prior state (spec 4.1). *)
Definition collectorAddError (name : string) (c0 : Cause) (c : Collector)
  : Collector :=
  {| errors := errors c ++ [mkError name c0]; fields := fields c |}.

(** Modelled from the spec: [utils/DataCollector] is not among the
    sources.  [createDataCollector()] makes a new accumulator, with no
    error and no field, distinct from every existing one (spec 3). *)
Definition createDataCollector : M Ref :=
  fun w =>
    let r := fresh (dom (heap w)) in
    (Returned r, setHeap (<[r := emptyCollector]> (heap w)) w).

(** Modelled from the spec: [utils/DataCollector] is not among the
    sources.  [get()] returns the current accumulated state, error list
    included (spec 4.1). *)
Definition get (r : Ref) (w : World) : Collector :=
  default emptyCollector (heap w !! r).

(** A method of the collector [r] changing its state by [f].  A
    reference of the source always has its collector; on a reference
    without one the method acts on an empty collector. *)
Definition update (r : Ref) (f : Collector -> Collector) (w : World)
  : World :=
  setHeap (<[r := f (get r w)]> (heap w)) w.

Definition add (r : Ref) (partial : Partial) : M unit :=
  fun w => (Returned tt, update r (collectorAdd partial) w).

Definition addError (r : Ref) (name : string) (c : Cause) : M unit :=
  fun w => (Returned tt, update r (collectorAddError name c) w).

(** ** The stage runner ([utils/runStage]) *)

(** Modelled from the spec: [utils/runStage] is not among the sources.
    [skip()] is the one capability a stage body receives; calling it
    leaves the body at once (spec 3, 4.2). *)
Definition skip : M never := fun w => (Skipped, w).

(** Modelled from the spec: [utils/runStage] is not among the sources.
    The body is invoked with [skip]; a body that returns [v] gives
    [(true, v)] and records nothing; a body that calls [skip()] gives
    [(false, undefined)] and records nothing; a body that throws [c]
    gives [(false, undefined)] and appends [{stage: name, cause: c}] to
    the accumulator; nothing the body raises leaves [runStage] (spec 4.2,
    6).  The telemetry of the stage name is kept as the list
    [invoked]. *)
Definition runStage {T} (name : string) (dataCollector : Ref)
    (body : M never -> M T) : M (bool * option T) :=
  fun w =>
    match body skip (logStage name w) with
    | (Returned v, w1) => (Returned (true, Some v), w1)
    | (Skipped, w1) => (Returned (false, None), w1)
    | (Threw c, w1) =>
        (Returned (false, None),
         update dataCollector (collectorAddError name c) w1)
    end.

(** ** Collaborators *)

(** A call that may throw and may change the outside world. *)
Definition Call (A : Type) : Type := Ext -> (Cause + A) * Ext.

(** The reply of a collaborator that was handed a collector: the method
    calls it issued on that collector, in order, how it ended, and the
    outside world it left. *)
Record Reply (A : Type) : Type := mkReply {
  ops : list CollectorOp;
  outcome : Cause + A;
  extAfter : Ext
}.
Arguments mkReply {A} ops outcome extAfter.
Arguments ops {A} r.
Arguments outcome {A} r.
Arguments extAfter {A} r.

Record Collaborators : Type := mkCollaborators {
  context : Context;
  (* typings/Options; getOptions is itself the body of the first stage,
     so it receives the skip capability. *)
  getOptions : Ext -> Completion Options * Ext;
  shouldRunTestScript : string -> bool;
  (* stages/ *)
  getCoverage : Collector -> Options -> option string -> Ext
                -> Reply JsonReport;
  switchBranch : option string -> Call unit;
  createReport : Collector -> Options -> Ext -> Reply SummaryReport;
  (* @actions/github and report/ *)
  getOctokit : string -> Call Octokit;
  generatePRReport : string -> Options -> Repo -> option PullRequest
                     -> Octokit -> Call unit;
  generateCommitReport : string -> Repo -> Octokit -> Call unit;
  checksCreate : Octokit -> CheckPayload -> Call unit;
  (* annotations/: [headCoverage!] is erased when the program runs, so
     these receive the value of the head stage as it is, defined or not. *)
  createFailedTestsAnnotations : option JsonReport -> Call (list Annotation);
  createCoverageAnnotations : option JsonReport -> Call (list Annotation);
  (* format/annotations/ *)
  formatFailedTestsAnnotations : string -> list Annotation
                                 -> Call CheckPayload;
  formatCoverageAnnotations : list Annotation -> Call CheckPayload;
  (* utils/i18n *)
  i18n : string -> string
}.

Definition completionOf {A} (r : Cause + A) : Completion A :=
  match r with
  | inl c => Threw c
  | inr a => Returned a
  end.

Definition call {A} (f : Call A) : M A :=
  fun w => let '(r, e) := f (ext w) in (completionOf r, setExt e w).

Definition callSkippable {A} (f : Ext -> Completion A * Ext) : M A :=
  fun w => let '(r, e) := f (ext w) in (r, setExt e w).

Definition applyOp (r : Ref) (w : World) (op : CollectorOp) : World :=
  match op with
  | OpAdd partial => update r (collectorAdd partial) w
  | OpError name c => update r (collectorAddError name c) w
  end.

Definition applyOps (r : Ref) (l : list CollectorOp) (w : World) : World :=
  foldl (applyOp r) w l.

(** A collaborator called with the collector [r] as an argument. *)
Definition callWith {A} (r : Ref) (f : Collector -> Ext -> Reply A) : M A :=
  fun w =>
    let reply := f (get r w) (ext w) in
    (completionOf (outcome reply),
     applyOps r (ops reply) (setExt (extAfter reply) w)).

(** The outcome of evaluating an expression of the pipeline itself. *)
Definition attempt {A} (r : Cause + A) : M A :=
  fun w => (completionOf r, w).

(** [v!.field]: reading a property of [undefined] throws. *)
Definition nonNull {A} (v : option A) : M A :=
  match v with
  | Some a => ret a
  | None => throw typeErrorUndefined
  end.

(** [if (b) { skip(); }] *)
Definition skipIf (b : bool) (skip : M never) : M unit :=
  if b then bind skip (fun x => absurd x) else ret tt.

Notation "x <- m ;; k" := (bind m (fun x => k))
  (at level 100, m at next level, right associativity).
Notation "m ;; k" := (bind m (fun _ => k))
  (at level 100, right associativity).

(** ** The pipeline ([run.ts]) *)

Variable env : Collaborators.

(** [context.eventName === 'pull_request'] (line 23). *)
Definition isInPR : bool := String.eqb (eventName (context env)) "pull_request".

(** Lines 25-29. *)
Definition stage_initialize (dataCollector : Ref)
  : M (bool * option Options) :=
  runStage "initialize" dataCollector
    (fun _ => callSkippable (getOptions env)).

(** Lines 35-45. *)
Definition stage_headCoverage (dataCollector : Ref) (options : Options)
  : M (bool * option JsonReport) :=
  runStage "headCoverage" dataCollector
    (fun _ =>
       callWith dataCollector
         (fun c => getCoverage env c options (coverageFile options))).

(** [if (v) { dataCollector.add(v); }] (lines 47-49 and 94-96). *)
Definition addIfDefined (dataCollector : Ref) (v : option JsonReport)
  : M unit :=
  match v with
  | Some report => add dataCollector report
  | None => ret tt
  end.

(** [context.payload.pull_request?.base.ref] (line 62): [undefined]
    without a pull request; with one, the read of [.ref] throws when the
    pull request has no [base]. *)
Definition baseBranch : Cause + option string :=
  match pull_request (context env) with
  | None => inr None
  | Some pr =>
      match base pr with
      | None => inl typeErrorUndefined
      | Some b => inr (base_ref b)
      end
  end.

(** Lines 58-70. *)
Definition stage_switchToBase (dataCollector : Ref)
  : M (bool * option unit) :=
  runStage "switchToBase" dataCollector
    (fun skip =>
       branch <- attempt baseBranch ;;
       skipIf (negb isInPR || negb (truthy branch)) skip ;;
       call (switchBranch env branch)).

(** The condition of line 53-56. *)
Definition mustSwitch (options : Options) : bool :=
  negb (truthy (baseCoverageFile options))
  && shouldRunTestScript env (skipStep options).

(** Lines 51-73: the value of [isSwitched] afterwards. *)
Definition switchPhase (dataCollector : Ref) (options : Options) : M bool :=
  if mustSwitch options then
    out <- stage_switchToBase dataCollector ;;
    ret (fst out)
  else ret true.

(** Lines 77-91. *)
Definition stage_baseCoverage (dataCollector ignoreCollector : Ref)
    (options : Options) (isSwitched : bool)
  : M (bool * option JsonReport) :=
  runStage "baseCoverage" dataCollector
    (fun skip =>
       skipIf (negb isSwitched) skip ;;
       callWith ignoreCollector
         (fun c => getCoverage env c options (baseCoverageFile options))).

(** Lines 105-111. *)
Definition stage_generateReportContent (dataCollector : Ref)
    (options : Options) : M (bool * option SummaryReport) :=
  runStage "generateReportContent" dataCollector
    (fun _ => callWith dataCollector (fun c => createReport env c options)).

(** Lines 119-141. *)
Definition stage_publishReport (dataCollector : Ref) (options : Options)
    (isReportContentGenerated : bool) (summaryReport : option SummaryReport)
  : M (bool * option unit) :=
  runStage "publishReport" dataCollector
    (fun skip =>
       skipIf (negb isReportContentGenerated) skip ;;
       octokit <- call (getOctokit env (token options)) ;;
       if isInPR then
         report <- nonNull summaryReport ;;
         call (generatePRReport env (text report) options
                 (repo (context env)) (pull_request (context env)) octokit)
       else
         report <- nonNull summaryReport ;;
         call (generateCommitReport env (text report)
                 (repo (context env)) octokit)).

(** Lines 149-170.  [headCoverage!] hands the value on as it is;
    [summaryReport!.runReport] reads a property. *)
Definition stage_failedTestsAnnotations (dataCollector : Ref)
    (options : Options) (isHeadCoverageGenerated : bool)
    (headCoverage : option JsonReport)
    (summaryReport : option SummaryReport) : M (bool * option unit) :=
  runStage "failedTestsAnnotations" dataCollector
    (fun skip =>
       skipIf (negb isHeadCoverageGenerated
               || negb (includes ["all"; "failed-tests"]
                          (annotations options))) skip ;;
       failedAnnotations <-
         call (createFailedTestsAnnotations env headCoverage) ;;
       skipIf (Nat.eqb (length failedAnnotations) 0) skip ;;
       octokit <- call (getOctokit env (token options)) ;;
       summary <- nonNull summaryReport ;;
       payload <- call (formatFailedTestsAnnotations env (runReport summary)
                          failedAnnotations) ;;
       call (checksCreate env octokit payload)).

(** Lines 178-196. *)
Definition stage_coverageAnnotations (dataCollector : Ref)
    (options : Options) (isHeadCoverageGenerated : bool)
    (headCoverage : option JsonReport) : M (bool * option unit) :=
  runStage "coverageAnnotations" dataCollector
    (fun skip =>
       skipIf (negb isHeadCoverageGenerated
               || negb (includes ["all"; "coverage"]
                          (annotations options))) skip ;;
       coverageAnnotations <-
         call (createCoverageAnnotations env headCoverage) ;;
       skipIf (Nat.eqb (length coverageAnnotations) 0) skip ;;
       octokit <- call (getOctokit env (token options)) ;;
       payload <- call (formatCoverageAnnotations env coverageAnnotations) ;;
       call (checksCreate env octokit payload)).

(** Lines 200-203: the final step. *)
Definition finalStep (dataCollector : Ref) : M unit :=
  fun w =>
    if Nat.ltb 0 (length (errors (get dataCollector w)))
    then (Returned tt, markFailed (i18n env "failed") w)
    else (Returned tt, w).

(** Lines 105-203: from report generation to the end. *)
Definition reportOnwards (dataCollector : Ref) (options : Options)
    (isHeadCoverageGenerated : bool) (headCoverage : option JsonReport)
  : M unit :=
  generated <- stage_generateReportContent dataCollector options ;;
  stage_publishReport dataCollector options (fst generated) (snd generated) ;;
  stage_failedTestsAnnotations dataCollector options
    isHeadCoverageGenerated headCoverage (snd generated) ;;
  stage_coverageAnnotations dataCollector options
    isHeadCoverageGenerated headCoverage ;;
  finalStep dataCollector.

(** Lines 75-96: the base-coverage stage on its disposable collector. *)
Definition basePhase (dataCollector : Ref) (options : Options)
    (isSwitched : bool) : M unit :=
  ignoreCollector <- createDataCollector ;;
  base <- stage_baseCoverage dataCollector ignoreCollector options
            isSwitched ;;
  addIfDefined dataCollector (snd base).

(** Lines 35-203: the pipeline once the options are resolved. *)
Definition afterInit (dataCollector : Ref) (options : Options) : M unit :=
  head <- stage_headCoverage dataCollector options ;;
  addIfDefined dataCollector (snd head) ;;
  isSwitched <- switchPhase dataCollector options ;;
  basePhase dataCollector options isSwitched ;;
  reportOnwards dataCollector options (fst head) (snd head).

(** Lines 31-33 and what follows, from the outcome of the first stage. *)
Definition afterInitialize (dataCollector : Ref)
    (outcome : bool * option Options) : M unit :=
  match outcome with
  | (true, Some options) => afterInit dataCollector options
  | _ => throw "Initialization failed."
  end.

(** [run(dataCollector)]. *)
Definition run (dataCollector : Ref) : M unit :=
  outcome <- stage_initialize dataCollector ;;
  afterInitialize dataCollector outcome.

(** [run()]: the default argument makes a new collector. *)
Definition runDefault : M unit :=
  dataCollector <- createDataCollector ;;
  run dataCollector.

(** ** Specification vocabulary *)

(** [Q] holds of the way [m] ends from [w] and of the world it leaves. *)
Definition wp {A} (m : M A) (Q : Completion A -> World -> Prop) (w : World)
  : Prop :=
  Q (fst (m w)) (snd (m w)).

(** What [bind] asks of its first half. *)
Definition bindPost {A B} (k : A -> M B) (Q : Completion B -> World -> Prop)
  : Completion A -> World -> Prop :=
  fun r w =>
    match r with
    | Returned a => wp (k a) Q w
    | Skipped => Q Skipped w
    | Threw c => Q (Threw c) w
    end.

(** A postcondition that only speaks of computations that return. *)
Definition onReturn {A} (P : World -> Prop) : Completion A -> World -> Prop :=
  fun r w =>
    match r with
    | Returned _ => P w
    | _ => True
    end.

(** [m] takes every world to an [R]-related one. *)
Definition preserves {A} (R : World -> World -> Prop) (m : M A) : Prop :=
  forall w, R w (snd (m w)).

(** A preorder on worlds that holds across a change of the outside world,
    across [add] and [addError] on any collector, and across the making of
    a collector. *)
Record Stable (R : World -> World -> Prop) : Prop := mkStable {
  stable_refl : forall w, R w w;
  stable_trans : forall w1 w2 w3, R w1 w2 -> R w2 w3 -> R w1 w3;
  stable_ext : forall e w, R w (setExt e w);
  stable_add : forall r partial w, R w (update r (collectorAdd partial) w);
  stable_error :
    forall r name c w, R w (update r (collectorAddError name c) w);
  stable_create : forall w, R w (snd (createDataCollector w))
}.

(** [R] holds across the telemetry of a stage name. *)
Definition Logs (R : World -> World -> Prop) : Prop :=
  forall name w, R w (logStage name w).

(** [R] holds across [setFailed]. *)
Definition Marks (R : World -> World -> Prop) : Prop :=
  forall message w, R w (markFailed message w).

(** Error lists only grow, on every collector. *)
Definition grows (w w' : World) : Prop :=
  forall r, errors (get r w) `prefix_of` errors (get r w').

(** The host's failure marker is unchanged. *)
Definition sameHost (w w' : World) : Prop := hostFailure w' = hostFailure w.

(** The list of invoked stages is unchanged. *)
Definition sameInvoked (w w' : World) : Prop := invoked w' = invoked w.

(** [m] returns, and the stages it invokes are those of [l], in order. *)
Definition emits {A} (l : list string) (m : M A) : Prop :=
  forall w, exists a,
    fst (m w) = Returned a /\ invoked (snd (m w)) = invoked w ++ l.

(** The stages of lines 51-73. *)
Definition switchStages (options : Options) : list string :=
  if mustSwitch options then ["switchToBase"] else [].

(** The stages of lines 35-203. *)
Definition stagesAfterInit (options : Options) : list string :=
  ["headCoverage"] ++ switchStages options
  ++ ["baseCoverage"; "generateReportContent"; "publishReport";
      "failedTestsAnnotations"; "coverageAnnotations"].

(** The marker the host holds after the final step: the failure message
    when the error list of [dc] is not empty, and otherwise [h], what it
    held before. *)
Definition verdict (dc : Ref) (h : option string) (w : World) : Prop :=
  hostFailure w
  = if Nat.ltb 0 (length (errors (get dc w)))
    then Some (i18n env "failed") else h.

(** The error records among a sequence of method calls. *)
Fixpoint opErrors (l : list CollectorOp) : list ErrorRecord :=
  match l with
  | [] => []
  | OpAdd _ :: l => opErrors l
  | OpError name c :: l => mkError name c :: opErrors l
  end.

(** The record [runStage] adds for the stage [name] when its body ended
    as [r]. *)
Definition stageRecord {A} (name : string) (r : Cause + A)
  : list ErrorRecord :=
  match r with
  | inl c => [mkError name c]
  | inr _ => []
  end.

(** ** Vocabulary for the behaviour of whole runs *)

(** The error list of [dc] is unchanged. *)
Definition sameErrors (dc : Ref) (w w' : World) : Prop :=
  errors (get dc w') = errors (get dc w).

(** The collectors of [keep] are unchanged. *)
Definition keeps (keep : Ref -> Prop) (w w' : World) : Prop :=
  forall r, keep r -> get r w' = get r w.

(** No collector disappears. *)
Definition domGrows (w w' : World) : Prop :=
  dom (heap w) ⊆ dom (heap w').

(** A preorder on worlds that holds across a change of the outside world
    and the making of a collector, across [add] on the collectors of
    [canAdd] and across [addError] on those of [canError]. *)
Record Frame (R : World -> World -> Prop) (canAdd canError : Ref -> Prop)
  : Prop := mkFrame {
  frame_refl : forall w, R w w;
  frame_trans : forall w1 w2 w3, R w1 w2 -> R w2 w3 -> R w1 w3;
  frame_ext : forall e w, R w (setExt e w);
  frame_create : forall w, R w (snd (createDataCollector w));
  frame_add :
    forall r partial w,
      canAdd r -> R w (update r (collectorAdd partial) w);
  frame_error :
    forall r name c w,
      canError r -> R w (update r (collectorAddError name c) w)
}.

(** From [w0] on, no collector has disappeared and the collectors that
    existed in [w0], but for [dc], are as they were. *)
Definition sinceStart (dc : Ref) (w0 w : World) : Prop :=
  domGrows w0 w
  /\ keeps (fun r => r ≠ dc /\ r ∈ dom (heap w0)) w0 w.

(** Any collector. *)
Definition anyRef (r : Ref) : Prop := True.

(** Any collector but [dc]. *)
Definition otherThan (dc r : Ref) : Prop := r ≠ dc.

(** Every way [m] can end satisfies [Q]. *)
Definition ends {A} (Q : Completion A -> Prop) (m : M A) : Prop :=
  forall w, Q (fst (m w)).

Definition isReturned {A} (r : Completion A) : Prop :=
  match r with
  | Returned _ => True
  | _ => False
  end.

Definition noThrow {A} (r : Completion A) : Prop :=
  match r with
  | Threw _ => False
  | _ => True
  end.

(** The stage completed, with a value. *)
Definition isCompleted {T} (r : Completion (bool * option T)) : Prop :=
  match r with
  | Returned (true, Some _) => True
  | _ => False
  end.

(** A call that never throws. *)
Definition returns {A} (f : Call A) : Prop :=
  forall e, exists a, fst (f e) = inr a.

(** A collaborator that never throws, whatever collector it is handed. *)
Definition replies {A} (f : Collector -> Ext -> Reply A) : Prop :=
  forall c e, exists a, outcome (f c e) = inr a.

(** A collaborator that records no error on the collector it is handed. *)
Definition silent {A} (f : Collector -> Ext -> Reply A) : Prop :=
  forall c e, opErrors (ops (f c e)) = [].

(** The collaborators that are handed a collector record no error
    themselves. *)
Record Silent : Prop := mkSilent {
  silent_getCoverage :
    forall o file, silent (fun c => getCoverage env c o file);
  silent_createReport : forall o, silent (fun c => createReport env c o)
}.

(** No collaborator called after the options are resolved throws, and
    none records an error. *)
Record Quiet : Prop := mkQuiet {
  quiet_silent : Silent;
  quiet_getCoverage :
    forall o file, replies (fun c => getCoverage env c o file);
  quiet_createReport : forall o, replies (fun c => createReport env c o);
  quiet_switchBranch : forall branch, returns (switchBranch env branch);
  quiet_getOctokit : forall t, returns (getOctokit env t);
  quiet_generatePRReport :
    forall body o r pr octokit,
      returns (generatePRReport env body o r pr octokit);
  quiet_generateCommitReport :
    forall body r octokit, returns (generateCommitReport env body r octokit);
  quiet_checksCreate :
    forall octokit payload, returns (checksCreate env octokit payload);
  quiet_createFailedTestsAnnotations :
    forall report, returns (createFailedTestsAnnotations env report);
  quiet_createCoverageAnnotations :
    forall report, returns (createCoverageAnnotations env report);
  quiet_formatFailedTestsAnnotations :
    forall report l, returns (formatFailedTestsAnnotations env report l);
  quiet_formatCoverageAnnotations :
    forall l, returns (formatCoverageAnnotations env l)
}.

(** The length of the error list of [dc]. *)
Definition errorCount (dc : Ref) (w : World) : nat :=
  length (errors (get dc w)).

End Engine.


Arguments mkReply {Ext A} ops outcome extAfter.
Arguments ops {Ext A} r.
Arguments outcome {Ext A} r.
Arguments extAfter {Ext A} r.

Notation "x <- m ;; k" := (bind m (fun x => k))
  (at level 100, m at next level, right associativity).
Notation "m ;; k" := (bind m (fun _ => k))
  (at level 100, right associativity).

(** * Concrete runs *)

(** The outside world of the runs below: the calls made, in order. *)
Definition Trace : Type := list string.

(** A collaborator call that notes its name and ends as [r]. *)
Definition noted {A} (name : string) (r : Cause + A) : @Call Trace A :=
  fun e => (r, e ++ [name]).

(** Collaborators that all succeed, up to the given behaviour of
    [getOptions], of [getCoverage] (by coverage file) and of
    [createReport], and the given annotations. *)
Definition scenario (ctx : Context) (resolved : Completion Options)
    (coverage : option string -> list CollectorOp * (Cause + JsonReport))
    (report : Cause + SummaryReport) (failed covered : list Annotation)
  : @Collaborators Trace :=
  {| context := ctx;
     getOptions := fun e => (resolved, e ++ ["getOptions"]);
     shouldRunTestScript := fun step => negb (String.eqb step "all");
     getCoverage := fun _ _ file e =>
       mkReply (fst (coverage file)) (snd (coverage file))
         (e ++ ["getCoverage"]);
     switchBranch := fun _ => noted "switchBranch" (inr tt);
     createReport := fun _ _ e => mkReply [] report (e ++ ["createReport"]);
     getOctokit := fun _ => noted "getOctokit" (inr "octokit");
     generatePRReport := fun _ _ _ _ _ => noted "generatePRReport" (inr tt);
     generateCommitReport := fun _ _ _ =>
       noted "generateCommitReport" (inr tt);
     checksCreate := fun _ _ => noted "checks.create" (inr tt);
     createFailedTestsAnnotations := fun _ =>
       noted "createFailedTestsAnnotations" (inr failed);
     createCoverageAnnotations := fun _ =>
       noted "createCoverageAnnotations" (inr covered);
     formatFailedTestsAnnotations := fun _ _ =>
       noted "formatFailedTestsAnnotations" (inr "payload");
     formatCoverageAnnotations := fun _ =>
       noted "formatCoverageAnnotations" (inr "payload");
     i18n := fun key => key |}.

(** A push event: no pull request, no base branch. *)
Definition pushContext : Context :=
  {| eventName := "push"; pull_request := None; repo := "owner/repo" |}.

(** A pull-request event with base branch [main]. *)
Definition prContext : Context :=
  {| eventName := "pull_request";
     pull_request := Some {| base := Some {| base_ref := Some "main" |} |};
     repo := "owner/repo" |}.

(** Options with both coverage files given. *)
Definition filesOptions (mode : string) : Options :=
  {| token := "t"; coverageFile := Some "head.json";
     baseCoverageFile := Some "base.json"; skipStep := "none";
     annotations := mode |}.

(** Options with no coverage file given. *)
Definition plainOptions (mode : string) : Options :=
  {| token := "t"; coverageFile := None; baseCoverageFile := None;
     skipStep := "none"; annotations := mode |}.

Definition headReport : JsonReport := {[ "head" := "80" ]}.
Definition baseReport : JsonReport := {[ "base" := "75" ]}.
Definition summary : SummaryReport := {| text := "report"; runReport := "ok" |}.

(** Coverage collection that succeeds for every file. *)
Definition coverageOk (file : option string)
  : list CollectorOp * (Cause + JsonReport) :=
  match file with
  | Some "base.json" => ([], inr baseReport)
  | _ => ([], inr headReport)
  end.

(** Coverage collection that fails for the base file only, after noting
    an error of its own on the collector it was handed. *)
Definition coverageBaseFails (file : option string)
  : list CollectorOp * (Cause + JsonReport) :=
  match file with
  | Some "base.json" => ([OpError "collectCoverage" "no file"], inl "boom")
  | _ => ([], inr headReport)
  end.

(** The world before a run: one empty collector, at reference 1. *)
Definition world0 : @World Trace :=
  {| heap := {[ 1%positive := emptyCollector ]}; ext := [];
     invoked := []; hostFailure := None |}.

(** Coverage collection that fails for the head file only. *)
Definition coverageHeadFails (file : option string)
  : list CollectorOp * (Cause + JsonReport) :=
  match file with
  | Some "base.json" => ([], inr baseReport)
  | _ => ([], inl "boom")
  end.

(** Everything succeeds, on a push, with both coverage files given. *)
Definition allGood : @Collaborators Trace :=
  scenario pushContext (Returned (filesOptions "all")) coverageOk
    (inr summary) [] [].

(** As [allGood], but collecting the base coverage fails. *)
Definition baseFails : @Collaborators Trace :=
  scenario pushContext (Returned (filesOptions "all")) coverageBaseFails
    (inr summary) [] [].

(** As [allGood], but [createReport] throws and there is a failed test to
    annotate. *)
Definition reportFails : @Collaborators Trace :=
  scenario pushContext (Returned (filesOptions "all")) coverageOk
    (inl "no report") ["a failed test"] [].

(** [createReport] throws and collecting the head coverage fails. *)
Definition headAndReportFail : @Collaborators Trace :=
  scenario pushContext (Returned (filesOptions "all")) coverageHeadFails
    (inl "no report") [] [].

(** [createReport] throws; annotations are off. *)
Definition reportFailsQuietly : @Collaborators Trace :=
  scenario pushContext (Returned (plainOptions "none")) coverageOk
    (inl "no report") [] [].

(** Everything succeeds, in a pull request, with no coverage file given. *)
Definition pullRequest : @Collaborators Trace :=
  scenario prContext (Returned (plainOptions "none")) coverageOk
    (inr summary) [] [].

(** [getOptions] throws. *)
Definition noOptions : @Collaborators Trace :=
  scenario pushContext (Threw "bad input") coverageOk (inr summary) [] [].

(** Everything succeeds, on a push, with no coverage file given. *)
Definition pushNoFiles : @Collaborators Trace :=
  scenario pushContext (Returned (plainOptions "all")) coverageOk
    (inr summary) [] [].

(** A stage body that throws at once. *)
Definition failingBody : @M Trace never -> @M Trace unit :=
  fun _ => throw "boom".

(** [env] with the given outcomes of [switchBranch] and of
    [octokit.checks.create]. *)
Definition withCalls (env : @Collaborators Trace)
    (switched created : Cause + unit) : @Collaborators Trace :=
  {| context := context env;
     getOptions := getOptions env;
     shouldRunTestScript := shouldRunTestScript env;
     getCoverage := getCoverage env;
     switchBranch := fun _ => noted "switchBranch" switched;
     createReport := createReport env;
     getOctokit := getOctokit env;
     generatePRReport := generatePRReport env;
     generateCommitReport := generateCommitReport env;
     checksCreate := fun _ _ => noted "checks.create" created;
     createFailedTestsAnnotations := createFailedTestsAnnotations env;
     createCoverageAnnotations := createCoverageAnnotations env;
     formatFailedTestsAnnotations := formatFailedTestsAnnotations env;
     formatCoverageAnnotations := formatCoverageAnnotations env;
     i18n := i18n env |}.

(** Coverage collection that succeeds for every file and records
    nothing. *)
Definition coverageAlways (file : option string)
  : list CollectorOp * (Cause + JsonReport) := ([], inr headReport).

(** Coverage collection that succeeds when tests are run and fails when
    a coverage file is given, recording nothing itself. *)
Definition coverageByFile (file : option string)
  : list CollectorOp * (Cause + JsonReport) :=
  match file with
  | None => ([], inr headReport)
  | Some _ => ([], inl "boom")
  end.

(** Options with a base coverage file only. *)
Definition baseOnlyOptions (mode : string) : Options :=
  {| token := "t"; coverageFile := None;
     baseCoverageFile := Some "base.json"; skipStep := "none";
     annotations := mode |}.

(** Everything succeeds, in a pull request, with annotations of both
    kinds to publish. *)
Definition quietPullRequest : @Collaborators Trace :=
  scenario prContext (Returned (plainOptions "all")) coverageAlways
    (inr summary) ["a failed test"] ["an uncovered line"].

(** An event other than [pull_request] whose payload has a pull request
    without a base. *)
Definition bareContext : Context :=
  {| eventName := "pull_request_target";
     pull_request := Some {| base := None |};
     repo := "owner/repo" |}.

(** Everything succeeds, on such an event, with no coverage file
    given. *)
Definition bareRequest : @Collaborators Trace :=
  scenario bareContext (Returned (plainOptions "all")) coverageAlways
    (inr summary) [] [].

(** In a pull request, switching to the base branch fails. *)
Definition switchFails : @Collaborators Trace :=
  withCalls quietPullRequest (inl "no such branch") (inr tt).

(** The base coverage cannot be read, [createReport] throws, and the
    checks cannot be created. *)
Definition worstCase : @Collaborators Trace :=
  withCalls
    (scenario pushContext (Returned (baseOnlyOptions "all")) coverageByFile
       (inl "no report") ["a failed test"] ["an uncovered line"])
    (inr tt) (inl "denied").

(** A world with a second collector, at reference 5, that holds an error
    of an earlier run. *)
Definition world2 : @World Trace :=
  {| heap := {[ 1%positive := emptyCollector;
                5%positive := {| errors := [mkError "earlier" "stale"];
                                 fields := ∅ |} ]};
     ext := []; invoked := []; hostFailure := None |}.

(** * Proofs *)

Section Proofs.

Context {Ext : Type}.
Variable env : @Collaborators Ext.

Implicit Types w wr wh : @World Ext.
Implicit Types R : @World Ext -> @World Ext -> Prop.

(** ** Reading the world after a method call *)

Lemma get_update_eq r f w : get r (update r f w) = f (get r w).
Proof. unfold get, update; simpl. by rewrite lookup_insert_eq. Qed.

Lemma get_update_ne r r' f w : r ≠ r' -> get r' (update r f w) = get r' w.
Proof. intros Hne. unfold get, update; simpl. by rewrite lookup_insert_ne. Qed.

Lemma get_setExt r e w : get r (setExt e w) = get r w.
Proof. reflexivity. Qed.

Lemma get_logStage r name w : get r (logStage name w) = get r w.
Proof. reflexivity. Qed.

Lemma get_markFailed r msg w : get r (markFailed msg w) = get r w.
Proof. reflexivity. Qed.

Lemma fresh_not_live w : heap w !! fresh (dom (heap w)) = None.
Proof. apply not_elem_of_dom, is_fresh. Qed.

Lemma get_create r w :
  get r (snd (createDataCollector w)) = get r w.
Proof.
  unfold get, createDataCollector; simpl.
  destruct (decide (fresh (dom (heap w)) = r)) as [<-|Hne].
  - by rewrite lookup_insert_eq, fresh_not_live.
  - by rewrite lookup_insert_ne.
Qed.

Lemma create_fresh r w :
  is_Some (heap w !! r) -> fresh (dom (heap w)) ≠ r.
Proof.
  intros [c Hc] Heq. rewrite <- Heq, fresh_not_live in Hc. discriminate.
Qed.

Lemma wp_bind {A B} (m : @M Ext A) (k : A -> @M Ext B) Q w :
  wp m (bindPost k Q) w -> wp (bind m k) Q w.
Proof.
  unfold wp, bind, bindPost. destruct (m w) as [[a| |c] w1]; simpl; auto.
Qed.

(** [runStage] absorbs whatever its body does. *)
Lemma runStage_returns {T} name dataCollector (body : @M Ext never -> @M Ext T) w :
  exists out, fst (runStage name dataCollector body w) = Returned out.
Proof.
  unfold runStage.
  destruct (body skip (logStage name w)) as [[v| |c] w1]; simpl; eauto.
Qed.

Section Preservation.

Variable R : @World Ext -> @World Ext -> Prop.
Hypothesis HR : Stable R.

Lemma preserves_ret {A} (a : A) : preserves R (ret a).
Proof. intros w. apply (stable_refl R HR). Qed.

Lemma preserves_throw {A} c : preserves R (throw (A:=A) c).
Proof. intros w. apply (stable_refl R HR). Qed.

Lemma preserves_skip : preserves R skip.
Proof. intros w. apply (stable_refl R HR). Qed.

Lemma preserves_bind {A B} (m : @M Ext A) (k : A -> @M Ext B) :
  preserves R m -> (forall a, preserves R (k a)) -> preserves R (bind m k).
Proof.
  intros Hm Hk w. specialize (Hm w). unfold bind.
  destruct (m w) as [[a| |c] w1]; simpl in *; auto.
  eapply (stable_trans R HR); [exact Hm | apply Hk].
Qed.

Lemma preserves_skipIf b : preserves R (skipIf b skip).
Proof.
  destruct b; simpl.
  - apply preserves_bind; [apply preserves_skip | intros []].
  - apply preserves_ret.
Qed.

Lemma preserves_nonNull {A} (v : option A) : preserves R (nonNull v).
Proof. destruct v; [apply preserves_ret | apply preserves_throw]. Qed.

Lemma preserves_attempt {A} (r : Cause + A) : preserves R (attempt r).
Proof. intros w. apply (stable_refl R HR). Qed.

Lemma preserves_call {A} (f : Call A) : preserves R (call f).
Proof.
  intros w. unfold call. destruct (f (ext w)) as [r e]; simpl.
  apply (stable_ext R HR).
Qed.

Lemma preserves_callSkippable {A} (f : Ext -> Completion A * Ext) :
  preserves R (callSkippable f).
Proof.
  intros w. unfold callSkippable. destruct (f (ext w)) as [r e]; simpl.
  apply (stable_ext R HR).
Qed.

Lemma applyOps_related r l w : R w (applyOps r l w).
Proof.
  unfold applyOps. revert w.
  induction l as [|op l IH]; intros w; simpl.
  - apply (stable_refl R HR).
  - eapply (stable_trans R HR); [|apply IH].
    destruct op; simpl; [apply (stable_add R HR) | apply (stable_error R HR)].
Qed.

Lemma preserves_callWith {A} r (f : Collector -> Ext -> Reply A) :
  preserves R (callWith r f).
Proof.
  intros w. unfold callWith; simpl.
  eapply (stable_trans R HR); [apply (stable_ext R HR)|].
  apply applyOps_related.
Qed.

Lemma preserves_add r partial : preserves R (add r partial).
Proof. intros w. apply (stable_add R HR). Qed.

Lemma preserves_addError r name c : preserves R (addError r name c).
Proof. intros w. apply (stable_error R HR). Qed.

Lemma preserves_addIfDefined r v : preserves R (addIfDefined r v).
Proof. destruct v; [apply preserves_add | apply preserves_ret]. Qed.

Lemma preserves_create : preserves R createDataCollector.
Proof. intros w. apply (stable_create R HR). Qed.

Lemma preserves_runStage {T} name r (body : @M Ext never -> @M Ext T) :
  Logs R -> preserves R (body skip) -> preserves R (runStage name r body).
Proof.
  intros HL Hb w. specialize (Hb (logStage name w)). unfold runStage.
  pose proof (HL name w) as Hlog.
  destruct (body skip (logStage name w)) as [[v| |c] w1]; simpl in *.
  - eapply (stable_trans R HR); eauto.
  - eapply (stable_trans R HR); eauto.
  - eapply (stable_trans R HR); [exact Hlog|].
    eapply (stable_trans R HR); [exact Hb|]. apply (stable_error R HR).
Qed.

End Preservation.

Create HintDb frame.

#[local] Hint Resolve preserves_ret preserves_throw preserves_skip
  preserves_skipIf preserves_nonNull preserves_attempt preserves_call
  preserves_callSkippable
  preserves_callWith preserves_add preserves_addError preserves_addIfDefined
  preserves_create : frame.

(** Solves [preserves R m] for [m] built from the operations above. *)
Ltac frame :=
  repeat first
    [ progress intros
    | apply preserves_bind; [assumption| |]
    | match goal with
      | |- preserves _ (if ?b then _ else _) => destruct b
      end
    | solve [auto with frame] ].

Lemma grows_update r f w :
  (forall c, errors c `prefix_of` errors (f c)) -> grows w (update r f w).
Proof.
  intros Hf r'. destruct (decide (r = r')) as [<-|Hne].
  - rewrite get_update_eq. apply Hf.
  - by rewrite get_update_ne.
Qed.

Lemma grows_stable : Stable (@grows Ext).
Proof.
  split.
  - intros w r. done.
  - intros w1 w2 w3 H12 H23 r.
    transitivity (errors (get r w2)); [apply H12 | apply H23].
  - intros e w r. done.
  - intros r partial w. apply grows_update. intros c. done.
  - intros r name c w. apply grows_update. intros c'. simpl.
    by apply prefix_app_r.
  - intros w r. by rewrite get_create.
Qed.

Lemma grows_logs : Logs (@grows Ext).
Proof. intros name w r. done. Qed.

Lemma sameHost_stable : Stable (@sameHost Ext).
Proof. split; unfold sameHost; intros; simpl; congruence. Qed.

Lemma sameHost_logs : Logs (@sameHost Ext).
Proof. intros name w. reflexivity. Qed.

Lemma sameInvoked_stable : Stable (@sameInvoked Ext).
Proof. split; unfold sameInvoked; intros; simpl; congruence. Qed.

(** ** Every stage respects every stable relation *)

Section Stages.

Variable R : @World Ext -> @World Ext -> Prop.
Hypothesis HR : Stable R.
Hypothesis HL : Logs R.

Lemma preserves_initialize dc : preserves R (stage_initialize env dc).
Proof. apply preserves_runStage; auto. frame. Qed.

Lemma preserves_headCoverage dc o : preserves R (stage_headCoverage env dc o).
Proof. apply preserves_runStage; auto. frame. Qed.

Lemma preserves_switchToBase dc : preserves R (stage_switchToBase env dc).
Proof. apply preserves_runStage; auto. frame. Qed.

Lemma preserves_switchPhase dc o : preserves R (switchPhase env dc o).
Proof.
  unfold switchPhase. destruct (mustSwitch env o); [|frame].
  apply preserves_bind; auto; [apply preserves_switchToBase | frame].
Qed.

Lemma preserves_baseCoverage dc ig o b :
  preserves R (stage_baseCoverage env dc ig o b).
Proof. apply preserves_runStage; auto. frame. Qed.

Lemma preserves_basePhase dc o b : preserves R (basePhase env dc o b).
Proof.
  unfold basePhase. apply preserves_bind; auto; [frame|]. intros ig.
  apply preserves_bind; auto; [apply preserves_baseCoverage | frame].
Qed.

Lemma preserves_generateReportContent dc o :
  preserves R (stage_generateReportContent env dc o).
Proof. apply preserves_runStage; auto. frame. Qed.

Lemma preserves_publishReport dc o b v :
  preserves R (stage_publishReport env dc o b v).
Proof. apply preserves_runStage; auto. frame. Qed.

Lemma preserves_failedTestsAnnotations dc o b hc sr :
  preserves R (stage_failedTestsAnnotations env dc o b hc sr).
Proof. apply preserves_runStage; auto. frame. Qed.

Lemma preserves_coverageAnnotations dc o b hc :
  preserves R (stage_coverageAnnotations env dc o b hc).
Proof. apply preserves_runStage; auto. frame. Qed.

End Stages.

(** ** The pipeline as a whole respects stable relations *)

Section Pipeline.

Variable R : @World Ext -> @World Ext -> Prop.
Hypothesis HR : Stable R.
Hypothesis HL : Logs R.
Hypothesis HM : Marks R.

Lemma preserves_finalStep dc : preserves R (finalStep env dc).
Proof.
  intros w. unfold finalStep.
  destruct (Nat.ltb 0 (length (errors (get dc w)))); simpl.
  - apply HM.
  - apply (stable_refl R HR).
Qed.

Lemma preserves_reportOnwards dc o b hc : preserves R (reportOnwards env dc o b hc).
Proof.
  unfold reportOnwards.
  apply preserves_bind; auto using preserves_generateReportContent.
  intros generated.
  apply preserves_bind; auto using preserves_publishReport. intros _.
  apply preserves_bind; auto using preserves_failedTestsAnnotations.
  intros _.
  apply preserves_bind; auto using preserves_coverageAnnotations.
  intros _. apply preserves_finalStep.
Qed.

Lemma preserves_afterInit dc o : preserves R (afterInit env dc o).
Proof.
  unfold afterInit.
  apply preserves_bind; auto using preserves_headCoverage. intros head.
  apply preserves_bind; auto using preserves_addIfDefined. intros _.
  apply preserves_bind; auto using preserves_switchPhase. intros isSwitched.
  apply preserves_bind; auto using preserves_basePhase. intros _.
  apply preserves_reportOnwards.
Qed.

Lemma preserves_run dc : preserves R (run env dc).
Proof.
  unfold run. apply preserves_bind; auto using preserves_initialize.
  intros [[] [o|]]; simpl;
    auto using preserves_afterInit, preserves_throw.
Qed.

End Pipeline.

Lemma grows_marks : Marks (@grows Ext).
Proof. intros message w r. done. Qed.

Lemma sameInvoked_marks : Marks (@sameInvoked Ext).
Proof. intros message w. reflexivity. Qed.

(** ** Which stages a computation invokes *)

Lemma emits_bind {A B} l1 l2 (m : @M Ext A) (k : A -> @M Ext B) :
  emits l1 m -> (forall a, emits l2 (k a)) -> emits (l1 ++ l2) (bind m k).
Proof.
  intros Hm Hk w. destruct (Hm w) as (a & Ha & Hl). unfold bind.
  destruct (m w) as [r w1]; simpl in *. subst r.
  destruct (Hk a w1) as (b & Hb & Hl'). exists b. split; [done|].
  rewrite Hl', Hl. by rewrite <- app_assoc.
Qed.

Lemma emits_ret {A} (a : A) : emits (Ext:=Ext) [] (ret a).
Proof. intros w. exists a. simpl. by rewrite app_nil_r. Qed.

Lemma emits_add r partial : emits (Ext:=Ext) [] (add r partial).
Proof. intros w. exists tt. simpl. by rewrite app_nil_r. Qed.

Lemma emits_addIfDefined r v : emits (Ext:=Ext) [] (addIfDefined r v).
Proof. destruct v; [apply emits_add | apply emits_ret]. Qed.

Lemma emits_create : emits [] (@createDataCollector Ext).
Proof. intros w. eexists. simpl. by rewrite app_nil_r. Qed.

Lemma emits_finalStep dc : emits [] (finalStep env dc).
Proof.
  intros w. exists tt. unfold finalStep.
  destruct (Nat.ltb 0 (length (errors (get dc w)))); simpl;
    by rewrite app_nil_r.
Qed.

Lemma emits_runStage {T} name r (body : @M Ext never -> @M Ext T) :
  preserves sameInvoked (body skip) -> emits [name] (runStage name r body).
Proof.
  intros Hb w. specialize (Hb (logStage name w)). unfold runStage.
  unfold sameInvoked in Hb.
  destruct (body skip (logStage name w)) as [[v| |c] w1]; simpl in *;
    eexists; (split; [reflexivity | exact Hb]).
Qed.

(** Solves [emits [name] stage] for a stage of the pipeline. *)
Ltac stage_emits :=
  apply emits_runStage; pose proof sameInvoked_stable; frame.

Lemma emits_initialize dc : emits ["initialize"] (stage_initialize env dc).
Proof. stage_emits. Qed.

Lemma emits_headCoverage dc o :
  emits ["headCoverage"] (stage_headCoverage env dc o).
Proof. stage_emits. Qed.

Lemma emits_switchToBase dc : emits ["switchToBase"] (stage_switchToBase env dc).
Proof. stage_emits. Qed.

Lemma emits_baseCoverage dc ig o b :
  emits ["baseCoverage"] (stage_baseCoverage env dc ig o b).
Proof. stage_emits. Qed.

Lemma emits_generateReportContent dc o :
  emits ["generateReportContent"] (stage_generateReportContent env dc o).
Proof. stage_emits. Qed.

Lemma emits_publishReport dc o b v :
  emits ["publishReport"] (stage_publishReport env dc o b v).
Proof. stage_emits. Qed.

Lemma emits_failedTestsAnnotations dc o b hc sr :
  emits ["failedTestsAnnotations"]
    (stage_failedTestsAnnotations env dc o b hc sr).
Proof. stage_emits. Qed.

Lemma emits_coverageAnnotations dc o b hc :
  emits ["coverageAnnotations"] (stage_coverageAnnotations env dc o b hc).
Proof. stage_emits. Qed.

Lemma emits_switchPhase dc o : emits (switchStages env o) (switchPhase env dc o).
Proof.
  unfold switchPhase, switchStages. destruct (mustSwitch env o).
  - apply (emits_bind ["switchToBase"] []);
      [apply emits_switchToBase | intros; apply emits_ret].
  - apply emits_ret.
Qed.

Lemma emits_basePhase dc o b : emits ["baseCoverage"] (basePhase env dc o b).
Proof.
  unfold basePhase. apply (emits_bind [] ["baseCoverage"]);
    [apply emits_create | intros ig].
  apply (emits_bind ["baseCoverage"] []);
    [apply emits_baseCoverage | intros; apply emits_addIfDefined].
Qed.

Lemma emits_reportOnwards dc o b hc :
  emits ["generateReportContent"; "publishReport";
         "failedTestsAnnotations"; "coverageAnnotations"]
    (reportOnwards env dc o b hc).
Proof.
  unfold reportOnwards.
  apply (emits_bind ["generateReportContent"] [_; _; _]);
    [apply emits_generateReportContent | intros generated].
  apply (emits_bind ["publishReport"] [_; _]);
    [apply emits_publishReport | intros _].
  apply (emits_bind ["failedTestsAnnotations"] [_]);
    [apply emits_failedTestsAnnotations | intros _].
  apply (emits_bind ["coverageAnnotations"] []);
    [apply emits_coverageAnnotations | intros _; apply emits_finalStep].
Qed.

Lemma emits_afterInit dc o : emits (stagesAfterInit env o) (afterInit env dc o).
Proof.
  unfold afterInit, stagesAfterInit.
  apply emits_bind; [apply emits_headCoverage | intros head].
  apply (emits_bind [] _); [apply emits_addIfDefined | intros _].
  apply emits_bind; [apply emits_switchPhase | intros isSwitched].
  apply (emits_bind ["baseCoverage"] [_; _; _; _]);
    [apply emits_basePhase | intros _; apply emits_reportOnwards].
Qed.

(** ** The final verdict *)

Lemma wp_bind_onReturn {A B} (R : @World Ext -> @World Ext -> Prop)
    (m : @M Ext A) (k : A -> @M Ext B) (P : @World Ext -> Prop) (w : World) :
  preserves R m ->
  (forall a w1, R w w1 -> wp (k a) (onReturn P) w1) ->
  wp (bind m k) (onReturn P) w.
Proof.
  intros Hm Hk. apply wp_bind. unfold wp, bindPost. specialize (Hm w).
  destruct (m w) as [[a| |c] w1]; simpl in *; auto.
Qed.

Lemma finalStep_verdict dc h w :
  hostFailure w = h -> wp (finalStep env dc) (onReturn (verdict env dc h)) w.
Proof.
  intros Hh. unfold wp, finalStep, verdict.
  destruct (Nat.ltb 0 (length (errors (get dc w)))) eqn:E; simpl.
  - rewrite get_markFailed. by rewrite E.
  - by rewrite E.
Qed.

Lemma reportOnwards_verdict dc o b hc h w :
  hostFailure w = h ->
  wp (reportOnwards env dc o b hc) (onReturn (verdict env dc h)) w.
Proof.
  pose proof sameHost_stable as HS. pose proof sameHost_logs as HL.
  intros Hh. unfold reportOnwards.
  apply (wp_bind_onReturn sameHost);
    [by apply preserves_generateReportContent | intros generated w1 H1].
  apply (wp_bind_onReturn sameHost);
    [by apply preserves_publishReport | intros _ w2 H2].
  apply (wp_bind_onReturn sameHost);
    [by apply preserves_failedTestsAnnotations | intros _ w3 H3].
  apply (wp_bind_onReturn sameHost);
    [by apply preserves_coverageAnnotations | intros _ w4 H4].
  apply finalStep_verdict. unfold sameHost in *. congruence.
Qed.

Lemma afterInit_verdict dc o h w :
  hostFailure w = h -> wp (afterInit env dc o) (onReturn (verdict env dc h)) w.
Proof.
  pose proof sameHost_stable as HS. pose proof sameHost_logs as HL.
  intros Hh. unfold afterInit.
  apply (wp_bind_onReturn sameHost);
    [by apply preserves_headCoverage | intros head w1 H1].
  apply (wp_bind_onReturn sameHost);
    [by apply preserves_addIfDefined | intros _ w2 H2].
  apply (wp_bind_onReturn sameHost);
    [by apply preserves_switchPhase | intros isSwitched w3 H3].
  apply (wp_bind_onReturn sameHost);
    [by apply preserves_basePhase | intros _ w4 H4].
  apply reportOnwards_verdict. unfold sameHost in *. congruence.
Qed.

Lemma run_verdict dc h w :
  hostFailure w = h -> wp (run env dc) (onReturn (verdict env dc h)) w.
Proof.
  pose proof sameHost_stable as HS. pose proof sameHost_logs as HL.
  intros Hh. unfold run.
  apply (wp_bind_onReturn sameHost);
    [by apply preserves_initialize | intros out w1 H1].
  destruct out as [[] [o|]]; simpl; try exact I.
  apply afterInit_verdict. unfold sameHost in *. congruence.
Qed.

(** C1.  A run that reaches its final step, in a process not yet marked
    failed: the process is marked failed, with the message
    [i18n('failed')], exactly when the error list of the main collector
    is not empty at the end; otherwise it stays unmarked. *)
Theorem run_failed_iff_errors (dc : Ref) (w w' : World) :
  hostFailure w = None ->
  run env dc w = (Returned tt, w') ->
  (hostFailure w' = Some (i18n env "failed") <-> errors (get dc w') ≠ [])
  /\ (hostFailure w' = None <-> errors (get dc w') = []).
Proof.
  intros Hh Hrun. pose proof (run_verdict dc None w Hh) as Hv.
  unfold wp in Hv. rewrite Hrun in Hv. simpl in Hv. unfold verdict in Hv.
  destruct (errors (get dc w')) as [|e l]; simpl in Hv; rewrite Hv.
  - split; split; intros; congruence.
  - split; split; intros; congruence.
Qed.

(** ** The stage runner: failure and skip *)

(** C2.  A stage body that throws [c]: [runStage] returns
    [(false, undefined)], the accumulator it was given holds one more
    error record, [{stage: name, cause: c}], at the end of its list, every
    other accumulator is as the body left it, and nothing is raised by
    [runStage] itself. *)
Theorem runStage_absorbs_failure {T} (name : string) (acc : Ref)
    (body : @M Ext never -> @M Ext T) (w w1 : World) (c : Cause) :
  body skip (logStage name w) = (Threw c, w1) ->
  runStage name acc body w
  = (Returned (false, None), update acc (collectorAddError name c) w1)
  /\ errors (get acc (snd (runStage name acc body w)))
     = errors (get acc w1) ++ [mkError name c]
  /\ length (errors (get acc (snd (runStage name acc body w))))
     = S (length (errors (get acc w1)))
  /\ (forall r, r ≠ acc ->
        get r (snd (runStage name acc body w)) = get r w1).
Proof.
  intros Hbody. unfold runStage. rewrite Hbody. simpl.
  rewrite get_update_eq. simpl. repeat split.
  - rewrite length_app. simpl. lia.
  - intros r Hr. by apply get_update_ne.
Qed.

(** C4.  A stage body whose first action is [skip()]: [runStage] returns
    [(false, undefined)] and the world is the one in which the body was
    entered, whatever the rest of the body is; so no accumulator has a
    new error record and nothing after the call took effect. *)
Theorem runStage_skip_first {T} (name : string) (acc : Ref)
    (rest : @M Ext never -> never -> @M Ext T)
    (after : @M Ext never -> @M Ext T) (w : World) :
  runStage name acc (fun skip => x <- skip ;; rest skip x) w
  = (Returned (false, None), logStage name w)
  /\ runStage name acc (fun skip => skipIf true skip ;; after skip) w
     = (Returned (false, None), logStage name w)
  /\ (forall r, get r (logStage name w) = get r w)
  /\ ext (logStage name w) = ext w.
Proof. repeat split. Qed.

(** ** Initialization and the order of the stages *)

Lemma initialize_returns dc w :
  exists out w1,
    stage_initialize env dc w = (Returned out, w1)
    /\ invoked w1 = invoked w ++ ["initialize"].
Proof.
  destruct (emits_initialize dc w) as (out & Hout & Hinv).
  exists out, (snd (stage_initialize env dc w)). split; [|done].
  destruct (stage_initialize env dc w) as [r w1]; simpl in *. by subst r.
Qed.

Lemma afterInit_returns dc o w :
  exists w',
    afterInit env dc o w = (Returned tt, w')
    /\ invoked w' = invoked w ++ stagesAfterInit env o.
Proof.
  destruct (emits_afterInit dc o w) as ([] & Hout & Hinv).
  exists (snd (afterInit env dc o w)). split; [|done].
  destruct (afterInit env dc o w) as [r w1]; simpl in *. by subst r.
Qed.

Lemma run_unfold dc w out w1 :
  stage_initialize env dc w = (Returned out, w1) ->
  run env dc w = afterInitialize env dc out w1.
Proof. intros H. unfold run, bind. by rewrite H. Qed.

(** C3.  Lines 31-33 throw [Error('Initialization failed.')] on every
    outcome of the first stage whose flag is false or whose value is
    undefined, in the world the first stage left: no later stage is
    invoked and nothing else has happened.  The first stage always
    returns, so a run is that check on its outcome; the outcome is
    [(false, undefined)] whenever [getOptions] throws or skips.  When
    the first stage completes with options, [run] returns: no later
    stage makes it throw. *)
Theorem initialization_failure_aborts (dc : Ref) :
  (forall (out : bool * option Options) w1,
     fst out = false \/ snd out = None ->
     afterInitialize env dc out w1 = (Threw "Initialization failed.", w1))
  /\ (forall w, exists out w1,
        stage_initialize env dc w = (Returned out, w1)
        /\ run env dc w = afterInitialize env dc out w1
        /\ invoked w1 = invoked w ++ ["initialize"]
        /\ (fst out = false \/ snd out = None ->
            run env dc w = (Threw "Initialization failed.", w1))
        /\ ((forall o, fst (getOptions env (ext w)) ≠ Returned o) ->
            out = (false, None))
        /\ (forall o, out = (true, Some o) ->
              exists w', run env dc w = (Returned tt, w'))).
Proof.
  assert (forall (out : bool * option Options) (w1 : @World Ext),
            fst out = false \/ snd out = None ->
            afterInitialize env dc out w1
            = (Threw "Initialization failed.", w1)) as Hcheck.
  { intros [[] [o|]] w1 Hfail; simpl in *; try reflexivity.
    destruct Hfail; congruence. }
  split; [exact Hcheck|]. intros w.
  destruct (initialize_returns dc w) as (out & w1 & Hinit & Hinv).
  exists out, w1. rewrite (run_unfold dc w out w1 Hinit).
  split; [exact Hinit|]. split; [reflexivity|]. split; [exact Hinv|].
  split; [apply Hcheck|]. split.
  - intros Hopt. revert Hinit.
    unfold stage_initialize, runStage, callSkippable. simpl.
    destruct (getOptions env (ext w)) as [[o| |c] e]; simpl in *.
    + by destruct (Hopt o).
    + congruence.
    + congruence.
  - intros o ->. simpl.
    destruct (afterInit_returns dc o w1) as (w' & Hrun & _). eauto.
Qed.

(** C6, as the code has it.  The stages of a run are invoked one after
    the other, each at most once, in a fixed order: a run whose first
    stage does not yield options invokes [initialize] alone and throws;
    every other run returns, having invoked [initialize], [headCoverage],
    then [switchToBase] exactly when [options.baseCoverageFile] is falsy
    and [shouldRunTestScript(options.skipStep)] holds, then
    [baseCoverage], [generateReportContent], [publishReport],
    [failedTestsAnnotations] and [coverageAnnotations].  The stages that
    are always invoked skip on the flag they test: [baseCoverage] when
    [isSwitched] is false, [publishReport] when
    [isReportContentGenerated] is false, and the two annotation stages
    when [isHeadCoverageGenerated] is false. *)
Theorem run_stage_order (dc : Ref) (w w1 : World)
    (out : bool * option Options) :
  stage_initialize env dc w = (Returned out, w1) ->
  invoked w1 = invoked w ++ ["initialize"]
  /\ match out with
     | (true, Some o) =>
         exists w',
           run env dc w = (Returned tt, w')
           /\ invoked w'
              = invoked w ++ ["initialize"; "headCoverage"]
                ++ (if negb (truthy (baseCoverageFile o))
                       && shouldRunTestScript env (skipStep o)
                    then ["switchToBase"] else [])
                ++ ["baseCoverage"; "generateReportContent";
                    "publishReport"; "failedTestsAnnotations";
                    "coverageAnnotations"]
           /\ NoDup ("initialize" :: stagesAfterInit env o)
           /\ (forall ig w2,
                 stage_baseCoverage env dc ig o false w2
                 = (Returned (false, None), logStage "baseCoverage" w2))
           /\ (forall summaryReport w2,
                 stage_publishReport env dc o false summaryReport w2
                 = (Returned (false, None), logStage "publishReport" w2))
           /\ (forall headCoverage summaryReport w2,
                 stage_failedTestsAnnotations env dc o false headCoverage
                   summaryReport w2
                 = (Returned (false, None),
                    logStage "failedTestsAnnotations" w2))
           /\ (forall headCoverage w2,
                 stage_coverageAnnotations env dc o false headCoverage w2
                 = (Returned (false, None),
                    logStage "coverageAnnotations" w2))
     | _ => run env dc w = (Threw "Initialization failed.", w1)
     end.
Proof.
  intros Hinit. rewrite (run_unfold dc w out w1 Hinit).
  destruct (initialize_returns dc w) as (out' & w1' & Heq & Hinv).
  assert (w1' = w1) as -> by congruence. split; [done|].
  destruct out as [[] [o|]]; simpl; try done.
  destruct (afterInit_returns dc o w1) as (w' & Hrun & Hinv').
  exists w'. split; [done|]. split; [|split].
  - rewrite Hinv', Hinv. unfold stagesAfterInit, switchStages, mustSwitch.
    by rewrite <- app_assoc.
  - unfold stagesAfterInit, switchStages.
    destruct (mustSwitch env o); simpl; compute_done.
  - repeat split.
Qed.

(** ** Error lists only grow *)

(** C9.  The error list of every accumulator is append-only: across
    [add], across [addError], across the execution of any stage whose
    body respects it, across each stage of the pipeline and across a
    whole run, the list before is a prefix of the list after, so no
    record is removed or changed and the length never decreases. *)
Theorem errors_append_only :
  (forall r partial w, grows w (snd (add r partial w)))
  /\ (forall r name c w, grows w (snd (addError r name c w)))
  /\ (forall T name r (body : @M Ext never -> @M Ext T),
        preserves grows (body skip) ->
        preserves grows (runStage name r body))
  /\ (forall dc ig o b hc sr,
        preserves grows (stage_initialize env dc)
        /\ preserves grows (stage_headCoverage env dc o)
        /\ preserves grows (stage_switchToBase env dc)
        /\ preserves grows (stage_baseCoverage env dc ig o b)
        /\ preserves grows (stage_generateReportContent env dc o)
        /\ preserves grows (stage_publishReport env dc o b sr)
        /\ preserves grows (stage_failedTestsAnnotations env dc o b hc sr)
        /\ preserves grows (stage_coverageAnnotations env dc o b hc))
  /\ (forall dc w, grows w (snd (run env dc w)))
  /\ (forall dc w r,
        length (errors (get r w))
        <= length (errors (get r (snd (run env dc w))))).
Proof.
  pose proof grows_stable as HS. pose proof grows_logs as HL.
  pose proof grows_marks as HM.
  split; [|split; [|split; [|split; [|split]]]].
  - intros r partial w. apply (stable_add grows HS).
  - intros r name c w. apply (stable_error grows HS).
  - intros T name r body Hb. by apply preserves_runStage.
  - intros dc ig o b hc sr.
    repeat split;
      auto using preserves_initialize, preserves_headCoverage,
        preserves_switchToBase, preserves_baseCoverage,
        preserves_generateReportContent, preserves_publishReport,
        preserves_failedTestsAnnotations, preserves_coverageAnnotations.
  - intros dc w. by apply preserves_run.
  - intros dc w r. apply prefix_length.
    apply (preserves_run grows HS HL HM dc w r).
Qed.

(** ** What a collaborator records on the collector it is handed *)

Lemma errors_applyOps r l w :
  errors (get r (applyOps r l w)) = errors (get r w) ++ opErrors l.
Proof.
  unfold applyOps. revert w.
  induction l as [|[partial|name c] l IH]; intros w; simpl.
  - by rewrite app_nil_r.
  - rewrite IH. by rewrite get_update_eq.
  - rewrite IH. rewrite get_update_eq. simpl. by rewrite <- app_assoc.
Qed.

Lemma get_applyOps_ne r r' l w : r ≠ r' -> get r' (applyOps r l w) = get r' w.
Proof.
  intros Hne. unfold applyOps. revert w.
  induction l as [|op l IH]; intros w; simpl; [done|].
  rewrite IH. destruct op; simpl; by apply get_update_ne.
Qed.

(** ** Scenario C: nothing to switch to *)

(** C8, as the code has it.  Outside a pull-request event and with no
    base branch identified, where the read of
    [context.payload.pull_request?.base.ref] does not throw (the payload
    has no pull request, or its pull request has a base) and the switch
    stage is invoked at all ([options.baseCoverageFile] falsy and
    [shouldRunTestScript(options.skipStep)]): the switch stage calls
    [skip()], its outcome is [(false, undefined)] and [isSwitched] is
    false; the base-coverage stage then skips too, with outcome
    [(false, undefined)]; across both, no collaborator is called, no
    error is recorded and no base coverage is added. *)
Theorem no_base_branch_skips_both (dc : Ref) (o : Options) (w : World)
    (branch : option string) :
  mustSwitch env o = true ->
  baseBranch env = inr branch ->
  isInPR env = false ->
  truthy branch = false ->
  let w1 := logStage "switchToBase" w in
  let ig := fresh (dom (heap w1)) in
  let w2 := snd (createDataCollector w1) in
  let w3 := logStage "baseCoverage" w2 in
  stage_switchToBase env dc w = (Returned (false, None), w1)
  /\ switchPhase env dc o w = (Returned false, w1)
  /\ stage_baseCoverage env dc ig o false w2 = (Returned (false, None), w3)
  /\ basePhase env dc o false w1 = (Returned tt, w3)
  /\ (forall r, get r w3 = get r w)
  /\ ext w3 = ext w.
Proof.
  intros Hswitch Hread Hpr Hnone. simpl.
  assert (stage_switchToBase env dc w
          = (Returned (false, None), logStage "switchToBase" w)) as Hstage.
  { unfold stage_switchToBase, runStage, bind, attempt.
    rewrite Hread. simpl. by rewrite Hpr. }
  repeat split.
  - exact Hstage.
  - unfold switchPhase, bind. by rewrite Hswitch, Hstage.
  - intros r. rewrite get_logStage.
    apply (get_create r (logStage "switchToBase" w)).
Qed.

(** ** The disposable collector of the base-coverage stage *)

Lemma get_created w : get (fresh (dom (heap w))) (snd (createDataCollector w))
                      = emptyCollector.
Proof. unfold get, createDataCollector; simpl. by rewrite lookup_insert_eq. Qed.

(** C5, as the code has it.  In the base-coverage phase the coverage
    collaborator is handed the disposable collector, a collector distinct
    from the main one: every error it records lands there and never on
    the main collector.  The main error list changes across the phase
    only when the body of the stage itself throws, and then by the one
    record [{stage: 'baseCoverage', cause}] that [runStage] appends;
    adding the base coverage to the main collector leaves its error list
    alone. *)
Theorem baseCoverage_errors_isolated (dc : Ref) (o : Options)
    (isSwitched : bool) (w : World) :
  is_Some (heap w !! dc) ->
  let ig := fresh (dom (heap w)) in
  let reply := getCoverage env emptyCollector o (baseCoverageFile o) (ext w) in
  let w' := snd (basePhase env dc o isSwitched w) in
  ig ≠ dc
  /\ errors (get ig w') = (if isSwitched then opErrors (ops reply) else [])
  /\ errors (get dc w')
     = errors (get dc w)
       ++ (if isSwitched then stageRecord "baseCoverage" (outcome reply)
           else []).
Proof.
  intros Hlive. simpl.
  pose proof (create_fresh dc w Hlive) as Hne.
  pose proof (get_created w) as Hempty.
  pose proof (get_create dc w) as Hdc.
  split; [done|].
  unfold basePhase, bind.
  destruct (createDataCollector w) as [r0 w0] eqn:Hcreate.
  assert (r0 = Returned (fresh (dom (heap w)))) as ->.
  { unfold createDataCollector in Hcreate. congruence. }
  simpl in Hempty, Hdc.
  unfold stage_baseCoverage, runStage, bind.
  destruct isSwitched; simpl.
  - unfold callWith. rewrite get_logStage, Hempty. simpl.
    assert (ext w0 = ext w) as ->.
    { unfold createDataCollector in Hcreate. by inversion Hcreate. }
    set (reply := getCoverage env emptyCollector o (baseCoverageFile o)
                    (ext w)).
    destruct (outcome reply) as [c|report]; simpl.
    + rewrite (get_update_ne dc), get_update_eq by done.
      rewrite errors_applyOps, (get_applyOps_ne _ dc) by done.
      rewrite !get_setExt, !get_logStage, Hempty, Hdc. done.
    + rewrite (get_update_ne dc), get_update_eq by done.
      rewrite errors_applyOps, (get_applyOps_ne _ dc) by done.
      rewrite !get_setExt, !get_logStage, Hempty, Hdc. simpl.
      by rewrite app_nil_r.
  - rewrite !get_logStage, Hempty, Hdc. by rewrite app_nil_r.
Qed.

(** ** Scenario D: report generation fails *)

Lemma bind_returned {A B} (m : @M Ext A) (k : A -> @M Ext B) w a w1 :
  m w = (Returned a, w1) -> bind m k w = k a w1.
Proof. intros H. unfold bind. by rewrite H. Qed.

Lemma runStage_eq {T} name r (body : @M Ext never -> @M Ext T) w :
  exists out,
    runStage name r body w = (Returned out, snd (runStage name r body w)).
Proof.
  destruct (runStage_returns name r body w) as [out Hout]. exists out.
  destruct (runStage name r body w) as [res w1]; simpl in *. by subst res.
Qed.

Lemma finalStep_marks dc w :
  errors (get dc w) ≠ [] ->
  finalStep env dc w = (Returned tt, markFailed (i18n env "failed") w).
Proof.
  intros Hne. unfold finalStep.
  destruct (errors (get dc w)) as [|e l]; [done | reflexivity].
Qed.

(** Line 166: the stage of the failed-tests annotations reads
    [summaryReport!.runReport] behind the flag of the head coverage only.
    With no summary report, once there is a failed test to annotate and
    the REST client is made, the read throws and the stage records it. *)
Lemma failedTestsAnnotations_without_summary dc o
    (hc : option JsonReport) l octokit e1 e2 w :
  includes ["all"; "failed-tests"] (annotations o) = true ->
  createFailedTestsAnnotations env hc (ext w) = (inr l, e1) ->
  l ≠ [] ->
  getOctokit env (token o) e1 = (inr octokit, e2) ->
  stage_failedTestsAnnotations env dc o true hc None w
  = (Returned (false, None),
     update dc
       (collectorAddError "failedTestsAnnotations" typeErrorUndefined)
       (setExt e2 (setExt e1 (logStage "failedTestsAnnotations" w)))).
Proof.
  intros Hmode Hfailed Hne Hoctokit.
  unfold stage_failedTestsAnnotations, runStage, bind, call.
  rewrite Hmode. simpl. rewrite Hfailed. simpl.
  destruct l as [|a l]; [done|]. simpl. by rewrite Hoctokit.
Qed.

(** C7, as the code has it.  When [createReport] throws [c] in the
    report-generation stage, [runStage] appends the one record
    [{stage: 'generateReportContent', cause: c}] after whatever
    [createReport] recorded itself, and the stage's outcome is
    [(false, undefined)]; the publish stage sees
    [isReportContentGenerated = false], calls [skip()] and adds no error;
    the run goes on to its final step and the host is marked failed.
    When the two annotation stages record no error either, the final
    error list is the list before the stage, what [createReport]
    recorded, and that one record: of length 1 when nothing else was
    recorded. *)
Theorem report_failure_recorded_once (dc : Ref) (o : Options)
    (isHeadCoverageGenerated : bool) (headCoverage : option JsonReport)
    (w : World) (c : Cause) :
  let reply := createReport env (get dc w) o (ext w) in
  let record := mkError "generateReportContent" c in
  let w1 := snd (stage_generateReportContent env dc o w) in
  let w2 := snd (stage_publishReport env dc o false None w1) in
  let w3 := snd (stage_failedTestsAnnotations env dc o isHeadCoverageGenerated
                   headCoverage None w2) in
  let w4 := snd (stage_coverageAnnotations env dc o isHeadCoverageGenerated
                   headCoverage w3) in
  let w' := snd (reportOnwards env dc o isHeadCoverageGenerated headCoverage w) in
  outcome reply = inl c ->
  fst (stage_generateReportContent env dc o w) = Returned (false, None)
  /\ errors (get dc w1)
     = errors (get dc w) ++ opErrors (ops reply) ++ [record]
  /\ stage_publishReport env dc o false None w1
     = (Returned (false, None), logStage "publishReport" w1)
  /\ fst (reportOnwards env dc o isHeadCoverageGenerated headCoverage w)
     = Returned tt
  /\ hostFailure w' = Some (i18n env "failed")
  /\ (errors (get dc w3) = errors (get dc w2) ->
      errors (get dc w4) = errors (get dc w3) ->
      errors (get dc w')
      = errors (get dc w) ++ opErrors (ops reply) ++ [record]
      /\ (errors (get dc w) = [] -> opErrors (ops reply) = [] ->
          length (errors (get dc w')) = 1)).
Proof.
  intros reply record w1 w2 w3 w4 w' Hthrows.
  pose proof grows_stable as HS. pose proof grows_logs as HL.
  assert (stage_generateReportContent env dc o w
          = (Returned (false, None),
             update dc (collectorAddError "generateReportContent" c)
               (applyOps dc (ops reply)
                  (setExt (extAfter reply)
                     (logStage "generateReportContent" w))))) as Hgen.
  { unfold stage_generateReportContent, runStage, callWith.
    rewrite get_logStage. simpl. fold reply. by rewrite Hthrows. }
  assert (errors (get dc w1)
          = errors (get dc w) ++ opErrors (ops reply) ++ [record]) as Herr1.
  { subst w1. rewrite Hgen. simpl. rewrite get_update_eq. simpl.
    rewrite errors_applyOps. by rewrite <- app_assoc. }
  assert (stage_publishReport env dc o false None w1
          = (Returned (false, None), logStage "publishReport" w1)) as Hpub
    by reflexivity.
  assert (exists out,
            stage_failedTestsAnnotations env dc o isHeadCoverageGenerated
              headCoverage None w2 = (Returned out, w3)) as [out3 H3]
    by apply runStage_eq.
  assert (exists out,
            stage_coverageAnnotations env dc o isHeadCoverageGenerated
              headCoverage w3 = (Returned out, w4)) as [out4 H4]
    by apply runStage_eq.
  assert (reportOnwards env dc o isHeadCoverageGenerated headCoverage w
          = finalStep env dc w4) as Hrun.
  { assert (stage_generateReportContent env dc o w
            = (Returned (false, None), w1)) as Hgen'
      by (subst w1; by rewrite Hgen).
    unfold reportOnwards. rewrite (bind_returned _ _ _ _ _ Hgen').
    cbn [fst snd]. rewrite (bind_returned _ _ _ _ _ Hpub). fold w2.
    rewrite (bind_returned _ _ _ _ _ H3).
    rewrite (bind_returned _ _ _ _ _ H4). reflexivity. }
  assert (errors (get dc w1) `prefix_of` errors (get dc w4)) as Hprefix.
  { transitivity (errors (get dc w2)).
    { apply (preserves_publishReport grows HS HL). }
    transitivity (errors (get dc w3)).
    { apply (preserves_failedTestsAnnotations grows HS HL). }
    apply (preserves_coverageAnnotations grows HS HL). }
  assert (errors (get dc w4) ≠ []) as Hne.
  { intros Hnil. rewrite Hnil, Herr1 in Hprefix.
    apply prefix_nil_inv in Hprefix.
    destruct (errors (get dc w)), (opErrors (ops reply)); discriminate. }
  split; [by rewrite Hgen|]. split; [done|]. split; [done|].
  subst w'. rewrite Hrun, (finalStep_marks dc w4 Hne). simpl.
  split; [done|]. split; [done|].
  intros Hsame3 Hsame4. rewrite get_markFailed.
  assert (errors (get dc w2) = errors (get dc w1)) as Hsame2
    by (subst w2; by rewrite Hpub).
  split; [congruence|].
  intros Hnil Hnone. rewrite Hsame4, Hsame3, Hsame2, Herr1, Hnil, Hnone.
  reflexivity.
Qed.

End Proofs.

(** * Further behaviour of the pipeline *)

Section Behaviour.

Context {Ext : Type}.
Variable env : @Collaborators Ext.

Implicit Types w : @World Ext.

(** ** A run that throws *)

(** A run that throws has thrown [Error('Initialization failed.')] right
    after the first stage: [setFailed] was not called, so the marker of
    the host is what it was, and when [getOptions] threw, its failure is
    the last record of the error list. *)
Theorem aborted_run_not_marked (dc : Ref) (w w' : World) (c : Cause) :
  run env dc w = (Threw c, w') ->
  c = "Initialization failed."
  /\ w' = snd (stage_initialize env dc w)
  /\ hostFailure w' = hostFailure w
  /\ invoked w' = invoked w ++ ["initialize"]
  /\ (forall c0,
        fst (getOptions env (ext w)) = Threw c0 ->
        errors (get dc w') = errors (get dc w) ++ [mkError "initialize" c0]).
Proof.
  intros Hrun.
  destruct (initialize_returns env dc w) as (out & w1 & Hinit & Hinv).
  rewrite (run_unfold env dc w out w1 Hinit) in Hrun.
  assert (c = "Initialization failed." /\ w' = w1) as [-> ->].
  { destruct out as [[] [o|]]; simpl in Hrun;
      try (by inversion Hrun).
    destruct (afterInit_returns env dc o w1) as (w2 & Hafter & _).
    congruence. }
  rewrite Hinit. simpl. repeat split; try done.
  - pose proof (preserves_initialize env sameHost sameHost_stable
                  sameHost_logs dc w) as Hhost.
    unfold sameHost in Hhost. by rewrite Hinit in Hhost.
  - intros c0 Hthrew. revert Hinit.
    unfold stage_initialize, runStage, callSkippable. simpl.
    destruct (getOptions env (ext w)) as [r e]. simpl in *. subst r.
    intros Hinit. inversion Hinit. by rewrite get_update_eq.
Qed.

(** ** Whether the base branch is switched to *)

(** After lines 51-73, [isSwitched] is true exactly when no switch was
    called for (a base coverage file is given, or the test script is not
    to be run), or the run is inside a pull request whose base branch is
    read without a throw and is truthy, and [switchBranch] returned. *)
Theorem isSwitched_iff (dc : Ref) (o : Options) (w : World) :
  exists b,
    fst (switchPhase env dc o w) = Returned b
    /\ (b = true <->
        mustSwitch env o = false
        \/ (isInPR env = true
            /\ exists branch,
                 baseBranch env = inr branch /\ truthy branch = true
                 /\ exists e, switchBranch env branch (ext w)
                              = (inr tt, e))).
Proof.
  unfold switchPhase. destruct (mustSwitch env o) eqn:Hmust.
  2:{ exists true. split; [done|]. split; auto. }
  unfold stage_switchToBase, runStage, bind, call, attempt. simpl.
  destruct (baseBranch env) as [c|branch]; simpl.
  { exists false. split; [done|].
    split; [done|]. intros [|(_ & ? & ? & _)]; done. }
  destruct (isInPR env); simpl.
  2:{ exists false. split; [done|].
      split; [done|]. intros [|(? & _)]; done. }
  destruct (truthy branch) eqn:Htruthy; simpl.
  2:{ exists false. split; [done|].
      split; [done|]. intros [|(_ & ? & Heq & ? & _)]; [done|].
      congruence. }
  destruct (switchBranch env branch (ext w)) as [[c|[]] e] eqn:Hswitch;
    simpl.
  - exists false. split; [done|].
    split; [done|]. intros [|(_ & ? & Heq & _ & e' & ?)]; [done|].
    congruence.
  - exists true. split; [done|]. split; [|done]. intros _. right.
    split; [done|]. exists branch. eauto.
Qed.

(** When a switch is called for and [switchBranch] throws, the failure
    is recorded once, under [switchToBase], [isSwitched] is false, and
    the base-coverage phase skips: coverage is not collected on the
    branch the run is still on, the outside world is as [switchBranch]
    left it, and nothing is added to the main collector. *)
Theorem failed_switch_skips_base (dc : Ref) (o : Options) (w : World)
    (branch : option string) (c : Cause) (e : Ext) :
  mustSwitch env o = true ->
  isInPR env = true ->
  baseBranch env = inr branch ->
  truthy branch = true ->
  switchBranch env branch (ext w) = (inl c, e) ->
  let w1 := update dc (collectorAddError "switchToBase" c)
              (setExt e (logStage "switchToBase" w)) in
  let w2 := snd (basePhase env dc o false w1) in
  switchPhase env dc o w = (Returned false, w1)
  /\ fst (basePhase env dc o false w1) = Returned tt
  /\ ext w2 = e
  /\ errors (get dc w2) = errors (get dc w) ++ [mkError "switchToBase" c]
  /\ fields (get dc w2) = fields (get dc w).
Proof.
  intros Hmust Hpr Hread Hbase Hswitch w1 w2.
  assert (switchPhase env dc o w = (Returned false, w1)) as Hphase.
  { unfold switchPhase, stage_switchToBase, runStage, bind, call, attempt.
    rewrite Hmust, Hread. simpl. rewrite Hpr, Hbase. simpl.
    by rewrite Hswitch. }
  split; [exact Hphase|]. split; [reflexivity|]. split; [reflexivity|].
  assert (get dc w2 = get dc w1) as ->.
  { subst w2. unfold basePhase, bind. simpl.
    rewrite get_logStage. apply (get_create dc w1). }
  subst w1. rewrite get_update_eq. simpl. done.
Qed.

(** ** The annotation stages *)

(** An annotation stage whose mode is off, or that follows a head
    coverage that was not generated, skips at once: no collaborator is
    called and nothing is recorded.  With the mode on and a head
    value from the head stage, defined or not, a stage that is given no
    annotation skips before the REST client is made: the only call is the
    one that computed the annotations. *)
Theorem annotation_stages_skip (dc : Ref) (o : Options)
    (isHeadCoverageGenerated : bool) (headCoverage : option JsonReport)
    (summaryReport : option SummaryReport) (w : World) :
  (isHeadCoverageGenerated = false
   \/ includes ["all"; "failed-tests"] (annotations o) = false ->
   stage_failedTestsAnnotations env dc o isHeadCoverageGenerated
     headCoverage summaryReport w
   = (Returned (false, None), logStage "failedTestsAnnotations" w))
  /\ (isHeadCoverageGenerated = false
      \/ includes ["all"; "coverage"] (annotations o) = false ->
      stage_coverageAnnotations env dc o isHeadCoverageGenerated
        headCoverage w
      = (Returned (false, None), logStage "coverageAnnotations" w))
  /\ (forall e,
        includes ["all"; "failed-tests"] (annotations o) = true ->
        createFailedTestsAnnotations env headCoverage (ext w)
        = (inr [], e) ->
        stage_failedTestsAnnotations env dc o true headCoverage
          summaryReport w
        = (Returned (false, None),
           setExt e (logStage "failedTestsAnnotations" w)))
  /\ (forall e,
        includes ["all"; "coverage"] (annotations o) = true ->
        createCoverageAnnotations env headCoverage (ext w) = (inr [], e) ->
        stage_coverageAnnotations env dc o true headCoverage w
        = (Returned (false, None),
           setExt e (logStage "coverageAnnotations" w))).
Proof.
  split; [|split; [|split]].
  - intros Hoff.
    assert (negb isHeadCoverageGenerated
            || negb (includes ["all"; "failed-tests"] (annotations o))
            = true) as Hguard.
    { destruct Hoff as [-> | ->]; [done | by rewrite orb_true_r]. }
    unfold stage_failedTestsAnnotations, runStage, bind.
    by rewrite Hguard.
  - intros Hoff.
    assert (negb isHeadCoverageGenerated
            || negb (includes ["all"; "coverage"] (annotations o))
            = true) as Hguard.
    { destruct Hoff as [-> | ->]; [done | by rewrite orb_true_r]. }
    unfold stage_coverageAnnotations, runStage, bind.
    by rewrite Hguard.
  - intros e Hmode Hnone.
    unfold stage_failedTestsAnnotations, runStage, bind, call.
    rewrite Hmode. simpl. by rewrite Hnone.
  - intros e Hmode Hnone.
    unfold stage_coverageAnnotations, runStage, bind, call.
    rewrite Hmode. simpl. by rewrite Hnone.
Qed.

(** ** Computations that respect a frame *)

Section Framed.

Variable R : @World Ext -> @World Ext -> Prop.
Variables canAdd canError : Ref -> Prop.
Hypothesis HF : Frame R canAdd canError.

Lemma framed_ret {A} (a : A) : preserves R (ret a).
Proof. intros w. apply (frame_refl _ _ _ HF). Qed.

Lemma framed_throw {A} c : preserves R (throw (A:=A) c).
Proof. intros w. apply (frame_refl _ _ _ HF). Qed.

Lemma framed_skip : preserves R skip.
Proof. intros w. apply (frame_refl _ _ _ HF). Qed.

Lemma framed_bind {A B} (m : @M Ext A) (k : A -> @M Ext B) :
  preserves R m -> (forall a, preserves R (k a)) -> preserves R (bind m k).
Proof.
  intros Hm Hk w. specialize (Hm w). unfold bind.
  destruct (m w) as [[a| |c] w1]; simpl in *; auto.
  eapply (frame_trans _ _ _ HF); [exact Hm | apply Hk].
Qed.

Lemma framed_skipIf b : preserves R (skipIf b skip).
Proof.
  destruct b; simpl.
  - apply framed_bind; [apply framed_skip | intros []].
  - apply framed_ret.
Qed.

Lemma framed_nonNull {A} (v : option A) : preserves R (nonNull v).
Proof. destruct v; [apply framed_ret | apply framed_throw]. Qed.

Lemma framed_attempt {A} (r : Cause + A) : preserves R (attempt r).
Proof. intros w. apply (frame_refl _ _ _ HF). Qed.

Lemma framed_call {A} (f : Call A) : preserves R (call f).
Proof.
  intros w. unfold call. destruct (f (ext w)) as [r e]; simpl.
  apply (frame_ext _ _ _ HF).
Qed.

Lemma framed_callSkippable {A} (f : Ext -> Completion A * Ext) :
  preserves R (callSkippable f).
Proof.
  intros w. unfold callSkippable. destruct (f (ext w)) as [r e]; simpl.
  apply (frame_ext _ _ _ HF).
Qed.

Lemma framed_applyOps r l w :
  canAdd r -> canError r \/ opErrors l = [] -> R w (applyOps r l w).
Proof.
  intros Hadd Herr. unfold applyOps. revert w.
  induction l as [|[partial|name c] l IH]; intros w; simpl.
  - apply (frame_refl _ _ _ HF).
  - eapply (frame_trans _ _ _ HF); [by apply (frame_add _ _ _ HF)|].
    apply IH. exact Herr.
  - destruct Herr as [Herr|Herr]; [|discriminate].
    eapply (frame_trans _ _ _ HF); [by apply (frame_error _ _ _ HF)|].
    apply IH. by left.
Qed.

Lemma framed_callWith {A} r (f : Collector -> Ext -> Reply A) :
  canAdd r -> canError r \/ silent f -> preserves R (callWith r f).
Proof.
  intros Hadd Herr w. unfold callWith; simpl.
  eapply (frame_trans _ _ _ HF); [apply (frame_ext _ _ _ HF)|].
  apply framed_applyOps; [done|].
  destruct Herr as [Herr|Herr]; [by left | right; apply Herr].
Qed.

Lemma framed_addIfDefined r v : canAdd r -> preserves R (addIfDefined r v).
Proof.
  intros Hadd. destruct v as [report|]; [|apply framed_ret].
  intros w. by apply (frame_add _ _ _ HF).
Qed.

Lemma framed_create : preserves R createDataCollector.
Proof. intros w. apply (frame_create _ _ _ HF). Qed.

(** A stage whose body respects the frame does, when its failure may be
    recorded on the collector it is given. *)
Lemma framed_runStage {T} name r (body : @M Ext never -> @M Ext T) :
  Logs R -> canError r ->
  preserves R (body skip) -> preserves R (runStage name r body).
Proof.
  intros HL Herr Hb w. specialize (Hb (logStage name w)). unfold runStage.
  pose proof (HL name w) as Hlog.
  destruct (body skip (logStage name w)) as [[v| |c] w1]; simpl in *.
  - eapply (frame_trans _ _ _ HF); eauto.
  - eapply (frame_trans _ _ _ HF); eauto.
  - eapply (frame_trans _ _ _ HF); [exact Hlog|].
    eapply (frame_trans _ _ _ HF); [exact Hb|].
    by apply (frame_error _ _ _ HF).
Qed.

(** A stage whose body respects the frame and does not throw does. *)
Lemma framed_runStage_noThrow {T} name r (body : @M Ext never -> @M Ext T) :
  Logs R -> ends noThrow (body skip) ->
  preserves R (body skip) -> preserves R (runStage name r body).
Proof.
  intros HL Hends Hb w. specialize (Hb (logStage name w)).
  specialize (Hends (logStage name w)). unfold runStage.
  pose proof (HL name w) as Hlog.
  destruct (body skip (logStage name w)) as [[v| |c] w1]; simpl in *.
  - eapply (frame_trans _ _ _ HF); eauto.
  - eapply (frame_trans _ _ _ HF); eauto.
  - done.
Qed.

End Framed.

Create HintDb framed.

#[local] Hint Resolve framed_ret framed_throw framed_skip framed_skipIf
  framed_nonNull framed_attempt framed_call framed_callSkippable
  framed_callWith
  framed_addIfDefined framed_create : framed.

(** Solves [preserves R m] for a stage body [m], from a hypothesis
    [Frame R canAdd canError] and the side conditions in the context. *)
Ltac framed :=
  repeat first
    [ progress intros
    | eapply framed_bind; [eassumption| |]
    | match goal with
      | |- preserves _ (if ?b then _ else _) => destruct b
      end
    | solve [eauto using silent_getCoverage, silent_createReport
               with framed] ].

(** ** What a run leaves alone *)

Lemma domGrows_stable : Stable (@domGrows Ext).
Proof.
  split; unfold domGrows; intros; simpl; try done.
  - by etrans.
  - rewrite dom_insert. set_solver.
  - rewrite dom_insert. set_solver.
  - rewrite dom_insert. set_solver.
Qed.

Lemma domGrows_logs : Logs (@domGrows Ext).
Proof. intros name w. unfold domGrows. done. Qed.

Lemma domGrows_marks : Marks (@domGrows Ext).
Proof. intros message w. unfold domGrows. done. Qed.

Lemma keeps_frame (keep : Ref -> Prop) :
  Frame (@keeps Ext keep) (fun r => ~ keep r) (fun r => ~ keep r).
Proof.
  split; unfold keeps.
  - done.
  - intros w1 w2 w3 H12 H23 r Hr. rewrite H23, H12; done.
  - done.
  - intros w r Hr. apply get_create.
  - intros r partial w Hr r' Hr'. apply get_update_ne. congruence.
  - intros r name c w Hr r' Hr'. apply get_update_ne. congruence.
Qed.

Lemma keeps_logs keep : Logs (@keeps Ext keep).
Proof. intros name w r Hr. done. Qed.

Section Keeps.

Variable keep : Ref -> Prop.
Variable dc : Ref.
Hypothesis Hdc : ~ keep dc.

Let HF := keeps_frame keep.
Let HL := keeps_logs keep.

(** Solves [preserves (keeps keep) stage] for a stage run on [dc]. *)
Ltac stage_keeps :=
  eapply framed_runStage; [exact HF | exact HL | exact Hdc |];
  pose proof HF; framed.

Lemma keeps_initialize : preserves (keeps keep) (stage_initialize env dc).
Proof. stage_keeps. Qed.

Lemma keeps_headCoverage o :
  preserves (keeps keep) (stage_headCoverage env dc o).
Proof. stage_keeps. Qed.

Lemma keeps_switchPhase o : preserves (keeps keep) (switchPhase env dc o).
Proof.
  unfold switchPhase. destruct (mustSwitch env o).
  - eapply framed_bind; [exact HF| |intros; eapply framed_ret; exact HF].
    stage_keeps.
  - eapply framed_ret; exact HF.
Qed.

Lemma keeps_basePhase o b w :
  ~ keep (fresh (dom (heap w))) ->
  keeps keep w (snd (basePhase env dc o b w)).
Proof.
  intros Hig. unfold basePhase.
  assert (preserves (keeps keep)
            (base <- stage_baseCoverage env dc (fresh (dom (heap w))) o b ;;
             addIfDefined dc (snd base))) as Hrest.
  { eapply framed_bind; [exact HF| |intros; by eapply framed_addIfDefined].
    stage_keeps. }
  unfold bind at 1. simpl.
  eapply (frame_trans _ _ _ HF); [apply (frame_create _ _ _ HF w)|].
  apply Hrest.
Qed.

Lemma keeps_reportOnwards o b hc :
  preserves (keeps keep) (reportOnwards env dc o b hc).
Proof.
  unfold reportOnwards.
  eapply framed_bind; [exact HF| |intros generated]; [stage_keeps|].
  eapply framed_bind; [exact HF| |intros _]; [stage_keeps|].
  eapply framed_bind; [exact HF| |intros _]; [stage_keeps|].
  eapply framed_bind; [exact HF| |intros _]; [stage_keeps|].
  intros w r Hr. unfold finalStep.
  by destruct (Nat.ltb 0 (length (errors (get dc w)))).
Qed.

End Keeps.

Lemma get_lookup r w c : heap w !! r = Some c -> get r w = c.
Proof. intros H. unfold get. by rewrite H. Qed.

Lemma chain_bind {A B} (P : @World Ext -> Prop) (m : @M Ext A)
    (k : A -> @M Ext B) w :
  P (snd (m w)) ->
  (forall a, P (snd (m w)) -> P (snd (k a (snd (m w))))) ->
  P (snd (bind m k w)).
Proof.
  intros Hm Hk. unfold bind. specialize (Hk).
  destruct (m w) as [[a| |c] w1]; simpl in *; auto.
Qed.

Lemma sinceStart_step dc w0 w w' :
  sinceStart dc w0 w ->
  domGrows w w' ->
  keeps (fun r => r ≠ dc /\ r ∈ dom (heap w0)) w w' ->
  sinceStart dc w0 w'.
Proof.
  intros [Hdom Hkeep] Hdom' Hkeep'. split.
  - unfold domGrows in *. by etrans.
  - intros r Hr. rewrite Hkeep', Hkeep; done.
Qed.

Lemma sinceStart_afterInit dc o w0 w :
  sinceStart dc w0 w -> sinceStart dc w0 (snd (afterInit env dc o w)).
Proof.
  pose proof domGrows_stable as HS. pose proof domGrows_logs as HL.
  pose proof domGrows_marks as HM.
  set (keep := fun r => r ≠ dc /\ r ∈ dom (heap w0)).
  assert (~ keep dc) as Hdc by (intros [? _]; done).
  intros Hstart. unfold afterInit.
  apply chain_bind.
  { eapply sinceStart_step; [exact Hstart | |].
    - by apply preserves_headCoverage.
    - by apply keeps_headCoverage. }
  intros head Hhead. apply chain_bind.
  { eapply sinceStart_step; [exact Hhead | |].
    - by apply preserves_addIfDefined.
    - eapply framed_addIfDefined; [apply keeps_frame | exact Hdc]. }
  intros _ Hadded. apply chain_bind.
  { eapply sinceStart_step; [exact Hadded | |].
    - by apply preserves_switchPhase.
    - by apply keeps_switchPhase. }
  intros isSwitched Hswitched. apply chain_bind.
  { eapply sinceStart_step; [exact Hswitched | |].
    - by apply preserves_basePhase.
    - apply keeps_basePhase; [exact Hdc|].
      intros [_ Hin]. destruct Hswitched as [Hdom _].
      apply Hdom in Hin. by apply is_fresh in Hin. }
  intros _ Hbase.
  eapply sinceStart_step; [exact Hbase | |].
  - by apply preserves_reportOnwards.
  - by apply keeps_reportOnwards.
Qed.

Lemma sinceStart_run dc w : sinceStart dc w (snd (run env dc w)).
Proof.
  pose proof domGrows_stable as HS. pose proof domGrows_logs as HL.
  assert (sinceStart dc w w) as Hstart.
  { split; [unfold domGrows; done | intros r Hr; done]. }
  unfold run. apply chain_bind.
  { eapply sinceStart_step; [exact Hstart | |].
    - by apply preserves_initialize.
    - apply keeps_initialize. intros [? _]; done. }
  intros [[] [o|]] Hinit; simpl; try exact Hinit.
  by apply sinceStart_afterInit.
Qed.

(** A run works on two collectors only, the one it is given and the
    disposable one it makes: every other collector that exists when the
    run starts still exists when it ends, whether by returning or by
    throwing, with the same errors and the same fields. *)
Theorem run_touches_only_its_collectors (dc r : Ref) (w : World) :
  r ≠ dc ->
  is_Some (heap w !! r) ->
  heap (snd (run env dc w)) !! r = heap w !! r
  /\ get r (snd (run env dc w)) = get r w.
Proof.
  intros Hne Hlive. destruct (sinceStart_run dc w) as [Hdom Hkeep].
  assert (r ∈ dom (heap w)) as Hin by by apply elem_of_dom.
  assert (get r (snd (run env dc w)) = get r w) as Hget
    by (apply Hkeep; done).
  split; [|exact Hget].
  apply Hdom, elem_of_dom in Hin. destruct Hin as [c' Hc'].
  destruct Hlive as [c Hc].
  rewrite (get_lookup _ _ _ Hc'), (get_lookup _ _ _ Hc) in Hget.
  subst c'. etrans; [exact Hc' | symmetry; exact Hc].
Qed.

(** ** How many errors a run records *)

Lemma anyRef_holds r : anyRef r.
Proof. exact I. Qed.

Lemma sameErrors_frame dc : Frame (@sameErrors Ext dc) anyRef (otherThan dc).
Proof.
  split; unfold sameErrors.
  - done.
  - intros w1 w2 w3 H12 H23. congruence.
  - done.
  - intros w. by rewrite get_create.
  - intros r partial w _. destruct (decide (r = dc)) as [->|Hne].
    + by rewrite get_update_eq.
    + by rewrite get_update_ne.
  - intros r name c w Hne. by rewrite get_update_ne.
Qed.

Lemma sameErrors_logs dc : Logs (@sameErrors Ext dc).
Proof. intros name w. done. Qed.

(** A stage whose body records nothing on [dc] returns, and either
    completes and leaves the error list of [dc] as it was, or does not
    complete and adds at most one record. *)
Lemma runStage_charge {T} dc name (body : @M Ext never -> @M Ext T) w :
  preserves (sameErrors dc) (body skip) ->
  exists out w',
    runStage name dc body w = (Returned out, w')
    /\ errorCount dc w' + (if fst out then 1 else 0) <= errorCount dc w + 1.
Proof.
  intros Hb. specialize (Hb (logStage name w)).
  unfold sameErrors in Hb. rewrite get_logStage in Hb.
  unfold runStage, errorCount.
  destruct (body skip (logStage name w)) as [[v| |c] w1]; simpl in *;
    eexists _, _; (split; [reflexivity|]); simpl.
  - rewrite Hb. lia.
  - rewrite Hb. lia.
  - rewrite get_update_eq. simpl. rewrite length_app, Hb. simpl. lia.
Qed.

Section Charges.

Hypothesis HSilent : Silent env.
Variable dc : Ref.

(** Solves [preserves (sameErrors dc) body] for the body of a stage. *)
Ltac body_silent :=
  pose proof (sameErrors_frame dc); pose proof anyRef_holds;
  pose proof (silent_getCoverage env HSilent);
  pose proof (silent_createReport env HSilent);
  framed.

Lemma initialize_charge w :
  exists out w',
    stage_initialize env dc w = (Returned out, w')
    /\ errorCount dc w' + (if fst out then 1 else 0) <= errorCount dc w + 1.
Proof. apply runStage_charge. body_silent. Qed.

Lemma headCoverage_charge o w :
  exists out w',
    stage_headCoverage env dc o w = (Returned out, w')
    /\ errorCount dc w' + (if fst out then 1 else 0) <= errorCount dc w + 1.
Proof. apply runStage_charge. body_silent. Qed.

Lemma addIfDefined_charge v w :
  errorCount dc (snd (addIfDefined dc v w)) = errorCount dc w.
Proof.
  destruct v as [report|]; simpl; [|done].
  unfold errorCount. by rewrite get_update_eq.
Qed.

Lemma switchToBase_charge w :
  exists out w',
    stage_switchToBase env dc w = (Returned out, w')
    /\ errorCount dc w' + (if fst out then 1 else 0) <= errorCount dc w + 1.
Proof. apply runStage_charge. body_silent. Qed.

Lemma switchPhase_charge o w :
  exists b w',
    switchPhase env dc o w = (Returned b, w')
    /\ errorCount dc w' + (if b then 1 else 0) <= errorCount dc w + 1.
Proof.
  unfold switchPhase. destruct (mustSwitch env o).
  - destruct (switchToBase_charge w) as (out & w' & Hrun & Hcount).
    exists (fst out), w'. split; [|exact Hcount].
    by rewrite (bind_returned _ _ _ _ _ Hrun).
  - exists true, w. split; [reflexivity | lia].
Qed.

Lemma baseCoverage_charge ig o b w :
  exists out w',
    stage_baseCoverage env dc ig o b w = (Returned out, w')
    /\ errorCount dc w' + (if fst out then 1 else 0) <= errorCount dc w + 1.
Proof. apply runStage_charge. body_silent. Qed.

Lemma basePhase_charge o b w :
  exists w',
    basePhase env dc o b w = (Returned tt, w')
    /\ errorCount dc w' <= errorCount dc w + (if b then 1 else 0).
Proof.
  unfold basePhase.
  set (ig := fresh (dom (heap w))).
  set (w0 := snd (createDataCollector w)).
  assert (createDataCollector w = (Returned ig, w0)) as Hmade by reflexivity.
  assert (errorCount dc w0 = errorCount dc w) as Hcreate.
  { unfold errorCount, w0. by rewrite get_create. }
  rewrite (bind_returned _ _ _ _ _ Hmade).
  destruct b.
  - destruct (baseCoverage_charge ig o true w0)
      as (out & w' & Hrun & Hcount).
    rewrite (bind_returned _ _ _ _ _ Hrun).
    exists (snd (addIfDefined dc (snd out) w')). split.
    + by destruct (snd out).
    + rewrite addIfDefined_charge. destruct (fst out); lia.
  - exists (logStage "baseCoverage" w0). split; [reflexivity|].
    unfold errorCount in *. rewrite get_logStage. lia.
Qed.

Lemma generateReportContent_charge o w :
  exists out w',
    stage_generateReportContent env dc o w = (Returned out, w')
    /\ errorCount dc w' + (if fst out then 1 else 0) <= errorCount dc w + 1.
Proof. apply runStage_charge. body_silent. Qed.

Lemma publishReport_charge o b sr w :
  exists out w',
    stage_publishReport env dc o b sr w = (Returned out, w')
    /\ errorCount dc w' <= errorCount dc w + (if b then 1 else 0).
Proof.
  destruct b.
  - assert (exists out w',
              stage_publishReport env dc o true sr w = (Returned out, w')
              /\ errorCount dc w' + (if fst out then 1 else 0)
                 <= errorCount dc w + 1)
      as (out & w' & Hrun & Hcount)
      by (apply runStage_charge; body_silent).
    exists out, w'. split; [exact Hrun|]. destruct (fst out); lia.
  - exists (false, None), (logStage "publishReport" w).
    split; [reflexivity|]. unfold errorCount. rewrite get_logStage. lia.
Qed.

Lemma failedTestsAnnotations_charge o b hc sr w :
  exists out w',
    stage_failedTestsAnnotations env dc o b hc sr w = (Returned out, w')
    /\ errorCount dc w' <= errorCount dc w + (if b then 1 else 0).
Proof.
  destruct b.
  - assert (exists out w',
              stage_failedTestsAnnotations env dc o true hc sr w
              = (Returned out, w')
              /\ errorCount dc w' + (if fst out then 1 else 0)
                 <= errorCount dc w + 1)
      as (out & w' & Hrun & Hcount)
      by (apply runStage_charge; body_silent).
    exists out, w'. split; [exact Hrun|]. destruct (fst out); lia.
  - exists (false, None), (logStage "failedTestsAnnotations" w).
    split; [reflexivity|]. unfold errorCount. rewrite get_logStage. lia.
Qed.

Lemma coverageAnnotations_charge o b hc w :
  exists out w',
    stage_coverageAnnotations env dc o b hc w = (Returned out, w')
    /\ errorCount dc w' <= errorCount dc w + (if b then 1 else 0).
Proof.
  destruct b.
  - assert (exists out w',
              stage_coverageAnnotations env dc o true hc w
              = (Returned out, w')
              /\ errorCount dc w' + (if fst out then 1 else 0)
                 <= errorCount dc w + 1)
      as (out & w' & Hrun & Hcount)
      by (apply runStage_charge; body_silent).
    exists out, w'. split; [exact Hrun|]. destruct (fst out); lia.
  - exists (false, None), (logStage "coverageAnnotations" w).
    split; [reflexivity|]. unfold errorCount. rewrite get_logStage. lia.
Qed.

Lemma finalStep_charge w :
  exists w',
    finalStep env dc w = (Returned tt, w')
    /\ errorCount dc w' = errorCount dc w.
Proof.
  unfold finalStep, errorCount.
  destruct (Nat.ltb 0 (length (errors (get dc w)))); eauto.
Qed.

Lemma afterInit_charge o w :
  errorCount dc (snd (afterInit env dc o w)) <= errorCount dc w + 4.
Proof.
  unfold afterInit, reportOnwards.
  destruct (headCoverage_charge o w) as (head & w1 & H1 & C1).
  rewrite (bind_returned _ _ _ _ _ H1).
  pose proof (addIfDefined_charge (snd head) w1) as C2.
  unfold bind at 1.
  destruct (addIfDefined dc (snd head) w1) as [r2 w2] eqn:H2.
  assert (r2 = Returned tt) as ->.
  { destruct (snd head); simpl in H2; by inversion H2. }
  simpl in C2.
  destruct (switchPhase_charge o w2) as (b & w3 & H3 & C3).
  rewrite (bind_returned _ _ _ _ _ H3).
  destruct (basePhase_charge o b w3) as (w4 & H4 & C4).
  rewrite (bind_returned _ _ _ _ _ H4).
  destruct (generateReportContent_charge o w4) as (gen & w5 & H5 & C5).
  rewrite (bind_returned _ _ _ _ _ H5).
  destruct (publishReport_charge o (fst gen) (snd gen) w5)
    as (out6 & w6 & H6 & C6).
  rewrite (bind_returned _ _ _ _ _ H6).
  destruct (failedTestsAnnotations_charge o (fst head) (snd head) (snd gen)
              w6) as (out7 & w7 & H7 & C7).
  rewrite (bind_returned _ _ _ _ _ H7).
  destruct (coverageAnnotations_charge o (fst head) (snd head) w7)
    as (out8 & w8 & H8 & C8).
  rewrite (bind_returned _ _ _ _ _ H8).
  destruct (finalStep_charge w8) as (w9 & H9 & C9). rewrite H9. simpl.
  destruct (fst head), b, (fst gen); lia.
Qed.

End Charges.

(** When the collaborators that are handed a collector record no error
    themselves, a run adds at most four records to the error list of its
    collector: a stage records at most one, and a stage that fails makes
    the stages that depend on it skip. *)
Theorem run_records_at_most_four (dc : Ref) (w : World) :
  Silent env ->
  errorCount dc (snd (run env dc w)) <= errorCount dc w + 4.
Proof.
  intros HSilent.
  destruct (initialize_charge HSilent dc w) as (out & w1 & Hinit & Hcount).
  rewrite (run_unfold env dc w out w1 Hinit).
  destruct out as [[] [o|]]; simpl in *; try lia.
  pose proof (afterInit_charge HSilent dc o w1). lia.
Qed.

(** ** A run in which nothing fails *)

Lemma ends_weaken {A} (Q Q' : Completion A -> Prop) (m : @M Ext A) :
  (forall r, Q r -> Q' r) -> ends Q m -> ends Q' m.
Proof. intros HQ Hm w. apply HQ, Hm. Qed.

Lemma isReturned_noThrow {A} (r : Completion A) : isReturned r -> noThrow r.
Proof. by destruct r. Qed.

Lemma ends_ret {A} (a : A) : ends isReturned (ret (Ext:=Ext) a).
Proof. intros w. exact I. Qed.

Lemma ends_bind_returned {A B} (Q : Completion B -> Prop) (m : @M Ext A)
    (k : A -> @M Ext B) :
  ends isReturned m -> (forall a, ends Q (k a)) -> ends Q (bind m k).
Proof.
  intros Hm Hk w. specialize (Hm w). unfold bind.
  destruct (m w) as [[a| |c] w1]; simpl in *; try done. apply Hk.
Qed.

Lemma ends_bind_noThrow {A B} (m : @M Ext A) (k : A -> @M Ext B) :
  ends noThrow m -> (forall a, ends noThrow (k a)) ->
  ends noThrow (bind m k).
Proof.
  intros Hm Hk w. specialize (Hm w). unfold bind.
  destruct (m w) as [[a| |c] w1]; simpl in *; try done. apply Hk.
Qed.

Lemma ends_skipIf b : ends noThrow (skipIf (Ext:=Ext) b skip).
Proof. intros w. by destruct b. Qed.

Lemma ends_call {A} (f : @Call Ext A) : returns f -> ends isReturned (call f).
Proof.
  intros Hf w. unfold call. destruct (Hf (ext w)) as [a Ha].
  destruct (f (ext w)) as [r e]. simpl in *. by subst r.
Qed.

Lemma ends_callWith {A} r (f : Collector -> Ext -> Reply A) :
  replies f -> ends isReturned (callWith r f).
Proof.
  intros Hf w. unfold callWith. simpl.
  destruct (Hf (get r w) (ext w)) as [a Ha]. by rewrite Ha.
Qed.

Lemma ends_nonNull {A} (a : A) : ends isReturned (nonNull (Ext:=Ext) (Some a)).
Proof. intros w. exact I. Qed.

Lemma ends_attempt {A} (r : Cause + A) :
  (exists a, r = inr a) -> ends isReturned (attempt (Ext:=Ext) r).
Proof. intros [a ->] w. exact I. Qed.

Lemma runStage_completes {T} name r (body : @M Ext never -> @M Ext T) :
  ends isReturned (body skip) -> ends isCompleted (runStage name r body).
Proof.
  intros Hb w. specialize (Hb (logStage name w)). unfold runStage.
  by destruct (body skip (logStage name w)) as [[v| |c] w1].
Qed.

Lemma completed_inv {T} (m : @M Ext (bool * option T)) w :
  ends isCompleted m -> exists v, m w = (Returned (true, Some v), snd (m w)).
Proof.
  intros Hm. specialize (Hm w).
  destruct (m w) as [[[[] [v|]]| |c] w1]; simpl in *; try done. eauto.
Qed.

Section QuietRun.

Hypothesis HQ : Quiet env.
Hypothesis HB : exists branch, baseBranch env = inr branch.
Variable dc : Ref.

Let HSilent := quiet_silent env HQ.
Let HF := sameErrors_frame dc.
Let HL := sameErrors_logs dc.

(** Solves [ends noThrow body] for the body of a stage all of whose
    dereferences are of defined values. *)
Ltac body_returns :=
  repeat first
    [ progress intros
    | apply ends_skipIf
    | eapply ends_weaken; [apply @isReturned_noThrow|];
      first [ apply ends_ret | apply ends_nonNull
            | apply ends_attempt; exact HB
            | apply ends_call; apply HQ
            | apply ends_callWith; apply HQ ]
    | apply ends_bind_noThrow
    | match goal with
      | |- ends _ (if ?b then _ else _) => destruct b
      end ].

(** Solves [preserves (sameErrors dc) body] for the body of a stage. *)
Ltac body_same :=
  pose proof HF; pose proof anyRef_holds;
  pose proof (silent_getCoverage env HSilent);
  pose proof (silent_createReport env HSilent);
  framed.

Ltac stage_same :=
  eapply framed_runStage_noThrow;
    [exact HF | exact HL | body_returns | body_same].

Lemma quiet_headCoverage o :
  ends isCompleted (stage_headCoverage env dc o)
  /\ preserves (sameErrors dc) (stage_headCoverage env dc o).
Proof.
  split; [|stage_same].
  apply runStage_completes. apply ends_callWith, HQ.
Qed.

Lemma quiet_generateReportContent o :
  ends isCompleted (stage_generateReportContent env dc o)
  /\ preserves (sameErrors dc) (stage_generateReportContent env dc o).
Proof.
  split; [|stage_same].
  apply runStage_completes. apply ends_callWith, HQ.
Qed.

Lemma quiet_switchPhase o : preserves (sameErrors dc) (switchPhase env dc o).
Proof.
  unfold switchPhase. destruct (mustSwitch env o).
  - eapply framed_bind; [exact HF| |intros; eapply framed_ret; exact HF].
    stage_same.
  - eapply framed_ret; exact HF.
Qed.

Lemma quiet_basePhase o b : preserves (sameErrors dc) (basePhase env dc o b).
Proof.
  unfold basePhase.
  eapply framed_bind; [exact HF | eapply framed_create; exact HF |].
  intros ig.
  eapply framed_bind; [exact HF | stage_same |].
  intros base. eapply framed_addIfDefined; [exact HF | exact I].
Qed.

Lemma quiet_publishReport o b report :
  preserves (sameErrors dc) (stage_publishReport env dc o b (Some report)).
Proof. stage_same. Qed.

Lemma quiet_failedTestsAnnotations o b hc report :
  preserves (sameErrors dc)
    (stage_failedTestsAnnotations env dc o b (Some hc) (Some report)).
Proof. stage_same. Qed.

Lemma quiet_coverageAnnotations o b hc :
  preserves (sameErrors dc)
    (stage_coverageAnnotations env dc o b (Some hc)).
Proof. stage_same. Qed.

Lemma quiet_afterInit o w : sameErrors dc w (snd (afterInit env dc o w)).
Proof.
  unfold afterInit, reportOnwards.
  destruct (quiet_headCoverage o) as [Hdone1 Hsame1].
  destruct (completed_inv _ w Hdone1) as [hc H1]. specialize (Hsame1 w).
  rewrite (bind_returned _ _ _ _ _ H1). cbn [fst snd].
  set (w1 := snd (stage_headCoverage env dc o w)) in *.
  apply chain_bind.
  { eapply (frame_trans _ _ _ HF); [exact Hsame1|].
    eapply framed_addIfDefined; [exact HF | exact I]. }
  intros _ H2. apply chain_bind.
  { eapply (frame_trans _ _ _ HF); [exact H2 | apply quiet_switchPhase]. }
  intros b H3. apply chain_bind.
  { eapply (frame_trans _ _ _ HF); [exact H3 | apply quiet_basePhase]. }
  intros _ H4.
  match goal with
  | |- sameErrors dc w (snd (bind _ _ ?x)) => set (w4 := x) in *
  end.
  destruct (quiet_generateReportContent o) as [Hdone5 Hsame5].
  destruct (completed_inv _ w4 Hdone5) as [sr H5]. specialize (Hsame5 w4).
  rewrite (bind_returned _ _ _ _ _ H5). cbn [fst snd].
  apply chain_bind.
  { eapply (frame_trans _ _ _ HF); [exact H4|].
    eapply (frame_trans _ _ _ HF); [exact Hsame5|].
    apply quiet_publishReport. }
  intros _ H6. apply chain_bind.
  { eapply (frame_trans _ _ _ HF);
      [exact H6 | apply quiet_failedTestsAnnotations]. }
  intros _ H7. apply chain_bind.
  { eapply (frame_trans _ _ _ HF);
      [exact H7 | apply quiet_coverageAnnotations]. }
  intros _ H8.
  eapply (frame_trans _ _ _ HF); [exact H8|].
  unfold sameErrors, finalStep.
  by destruct (Nat.ltb 0 _).
Qed.

End QuietRun.

Lemma initialize_completed_same dc w o w1 :
  stage_initialize env dc w = (Returned (true, Some o), w1) ->
  sameErrors dc w w1.
Proof.
  unfold stage_initialize, runStage, callSkippable. simpl.
  destruct (getOptions env (ext w)) as [[o'| |c] e]; simpl;
    intros H; inversion H. done.
Qed.

(** When no collaborator called after the options are resolved throws or
    records an error, and the read of
    [context.payload.pull_request?.base.ref] does not throw (the payload
    has no pull request, or its pull request has a base), a run that
    returns has recorded nothing: the error list of its collector is as
    it was before the run, and when the list was empty the host is not
    marked failed by the run. *)
Theorem quiet_run_records_nothing (dc : Ref) (w w' : World) :
  Quiet env ->
  (exists branch, baseBranch env = inr branch) ->
  run env dc w = (Returned tt, w') ->
  errors (get dc w') = errors (get dc w)
  /\ (errors (get dc w) = [] -> hostFailure w' = hostFailure w).
Proof.
  intros HQ HB Hrun.
  destruct (initialize_returns env dc w) as (out & w1 & Hinit & _).
  assert (errors (get dc w') = errors (get dc w)) as Hsame.
  { rewrite (run_unfold env dc w out w1 Hinit) in Hrun.
    destruct out as [[] [o|]]; simpl in Hrun; try (by inversion Hrun).
    pose proof (initialize_completed_same dc w o w1 Hinit) as H1.
    pose proof (quiet_afterInit HQ HB dc o w1) as H2.
    rewrite Hrun in H2. unfold sameErrors in *. simpl in H2. congruence. }
  split; [exact Hsame|]. intros Hnil.
  pose proof (run_verdict env dc (hostFailure w) w eq_refl) as Hv.
  unfold wp in Hv. rewrite Hrun in Hv. simpl in Hv. unfold verdict in Hv.
  by rewrite Hsame, Hnil in Hv.
Qed.

(** ** The default collector *)

Lemma runDefault_unfold w :
  runDefault env w
  = run env (fresh (dom (heap w))) (snd (createDataCollector w)).
Proof. reflexivity. Qed.

(** [run()] without an argument makes its own collector: the collectors
    that exist already are left as they are, whatever they hold; the
    verdict is on the errors of the new collector alone, all of them
    recorded by this run; and when the collaborators that are handed a
    collector record no error themselves there are at most four. *)
Theorem runDefault_judges_its_own_errors (w w' : World) :
  runDefault env w = (Returned tt, w') ->
  let dc := fresh (dom (heap w)) in
  heap w !! dc = None
  /\ (forall r, is_Some (heap w !! r) -> get r w' = get r w)
  /\ (hostFailure w = None ->
      (hostFailure w' = Some (i18n env "failed") <-> errors (get dc w') ≠ []))
  /\ (Silent env -> length (errors (get dc w')) <= 4).
Proof.
  intros Hrun dc. rewrite runDefault_unfold in Hrun. fold dc in Hrun.
  set (w0 := snd (createDataCollector w)) in *.
  assert (heap w !! dc = None) as Hfresh by apply fresh_not_live.
  split; [exact Hfresh|]. split; [|split].
  - intros r Hlive.
    destruct (sinceStart_run dc w0) as [_ Hkeep].
    rewrite Hrun in Hkeep. simpl in Hkeep.
    rewrite Hkeep; [apply (get_create r w)|]. split.
    + intros ->. destruct Hlive as [c Hc]. congruence.
    + unfold w0. simpl. rewrite dom_insert. apply elem_of_union_r.
      by apply elem_of_dom.
  - intros Hhost.
    pose proof (run_verdict env dc None w0 Hhost) as Hv.
    unfold wp in Hv. rewrite Hrun in Hv. simpl in Hv. unfold verdict in Hv.
    destruct (errors (get dc w')) as [|e l]; simpl in Hv; rewrite Hv;
      split; intros; congruence.
  - intros HSilent.
    destruct (initialize_charge HSilent dc w0)
      as (out & w1 & Hinit & Hcount).
    assert (errorCount dc w0 = 0) as Hzero.
    { unfold errorCount, w0, dc. by rewrite get_created. }
    rewrite (run_unfold env dc w0 out w1 Hinit) in Hrun.
    destruct out as [[] [o|]]; simpl in *; try (by inversion Hrun).
    pose proof (afterInit_charge HSilent dc o w1) as Hafter.
    rewrite Hrun in Hafter. simpl in Hafter. unfold errorCount in *. lia.
Qed.

(** ** The head coverage *)

(** Lines 35-49.  When [getCoverage] returns a report, the head stage
    completes with it and the report is merged into the main collector:
    every field of the report can be read from the collector, and the
    only new errors are those [getCoverage] recorded itself.  When it
    throws, the stage does not complete, the failure is recorded under
    [headCoverage] after those, and no field is merged. *)
Theorem headCoverage_flows (dc : Ref) (o : Options) (w : World) :
  let reply := getCoverage env (get dc w) o (coverageFile o) (ext w) in
  let after := applyOps dc (ops reply)
                 (setExt (extAfter reply) (logStage "headCoverage" w)) in
  let w2 := snd ((head <- stage_headCoverage env dc o ;;
                  addIfDefined dc (snd head)) w) in
  (forall report,
     outcome reply = inr report ->
     stage_headCoverage env dc o w = (Returned (true, Some report), after)
     /\ errors (get dc w2) = errors (get dc w) ++ opErrors (ops reply)
     /\ fields (get dc w2) = report ∪ fields (get dc after)
     /\ (forall k v,
           report !! k = Some v -> fields (get dc w2) !! k = Some v))
  /\ (forall c,
        outcome reply = inl c ->
        stage_headCoverage env dc o w
        = (Returned (false, None),
           update dc (collectorAddError "headCoverage" c) after)
        /\ errors (get dc w2)
           = errors (get dc w) ++ opErrors (ops reply)
             ++ [mkError "headCoverage" c]
        /\ fields (get dc w2) = fields (get dc after)).
Proof.
  intros reply after w2.
  assert (errors (get dc after) = errors (get dc w) ++ opErrors (ops reply))
    as Hafter.
  { unfold after. by rewrite errors_applyOps. }
  split.
  - intros report Hreturned.
    assert (stage_headCoverage env dc o w
            = (Returned (true, Some report), after)) as Hstage.
    { unfold stage_headCoverage, runStage, callWith.
      rewrite get_logStage. simpl. fold reply. by rewrite Hreturned. }
    assert (get dc w2 = collectorAdd report (get dc after)) as Hmerged.
    { unfold w2. rewrite (bind_returned _ _ _ _ _ Hstage). simpl.
      by rewrite get_update_eq. }
    split; [exact Hstage|]. rewrite Hmerged. simpl.
    split; [exact Hafter|]. split; [reflexivity|].
    intros k v Hk. by apply lookup_union_Some_l.
  - intros c Hthrew.
    assert (stage_headCoverage env dc o w
            = (Returned (false, None),
               update dc (collectorAddError "headCoverage" c) after))
      as Hstage.
    { unfold stage_headCoverage, runStage, callWith.
      rewrite get_logStage. simpl. fold reply. by rewrite Hthrew. }
    split; [exact Hstage|].
    unfold w2. rewrite (bind_returned _ _ _ _ _ Hstage). simpl.
    rewrite get_update_eq. simpl. rewrite Hafter.
    split; [by rewrite <- app_assoc | reflexivity].
Qed.

End Behaviour.

(** ** Examples of whole runs *)

Example run_allGood :
  let r := run allGood 1%positive world0 in
  fst r = Returned tt
  /\ errors (get 1%positive (snd r)) = []
  /\ hostFailure (snd r) = None.
Proof. vm_compute. repeat split. Qed.

Example run_noOptions :
  let r := run noOptions 1%positive world0 in
  fst r = Threw "Initialization failed."
  /\ invoked (snd r) = ["initialize"]
  /\ ext (snd r) = ["getOptions"].
Proof. vm_compute. repeat split. Qed.

(** ** The theorems at concrete runs *)

Lemma run_failed_iff_errors_witness :
  (hostFailure (snd (run baseFails 1%positive world0)) = Some "failed"
   <-> errors (get 1%positive (snd (run baseFails 1%positive world0))) ≠ [])
  /\ (hostFailure (snd (run baseFails 1%positive world0)) = None
      <-> errors (get 1%positive (snd (run baseFails 1%positive world0)))
          = []).
Proof.
  apply (run_failed_iff_errors baseFails 1%positive world0).
  - reflexivity.
  - vm_compute. reflexivity.
Defined.

Lemma runStage_absorbs_failure_witness :
  failingBody skip (logStage "demo" world0)
  = (Threw "boom", logStage "demo" world0)
  /\ errors (get 1%positive
               (snd (runStage "demo" 1%positive failingBody world0)))
     = errors (get 1%positive (logStage "demo" world0))
       ++ [mkError "demo" "boom"].
Proof.
  split; [reflexivity|].
  apply (runStage_absorbs_failure "demo" 1%positive failingBody
           world0 (logStage "demo" world0) "boom").
  reflexivity.
Defined.

Lemma initialization_failure_aborts_witness :
  afterInitialize noOptions 1%positive (true, None) world0
  = (Threw "Initialization failed.", world0)
  /\ afterInitialize noOptions 1%positive
       (false, Some (plainOptions "all")) world0
     = (Threw "Initialization failed.", world0)
  /\ exists w1,
       run noOptions 1%positive world0
       = (Threw "Initialization failed.", w1)
       /\ invoked w1 = invoked world0 ++ ["initialize"].
Proof.
  destruct (initialization_failure_aborts noOptions 1%positive)
    as [Hcheck Hrun].
  split; [apply Hcheck; right; reflexivity|].
  split; [apply Hcheck; left; reflexivity|].
  destruct (Hrun world0)
    as (out & w1 & _ & _ & Hinv & Habort & Hfailed & _).
  exists w1. split; [|exact Hinv].
  apply Habort. rewrite Hfailed; [left; reflexivity|].
  intros o. discriminate.
Defined.

Lemma baseCoverage_errors_isolated_witness :
  is_Some (heap world0 !! 1%positive)
  /\ errors (get 2%positive
               (snd (basePhase baseFails 1%positive (filesOptions "all")
                       true world0)))
     = [mkError "collectCoverage" "no file"]
  /\ errors (get 1%positive
               (snd (basePhase baseFails 1%positive (filesOptions "all")
                       true world0)))
     = [mkError "baseCoverage" "boom"].
Proof.
  assert (is_Some (heap world0 !! 1%positive)) as Hlive
    by (exists emptyCollector; reflexivity).
  split; [exact Hlive|].
  apply (baseCoverage_errors_isolated baseFails 1%positive
           (filesOptions "all") true world0 Hlive).
Defined.

Lemma run_stage_order_witness :
  stage_initialize pullRequest 1%positive world0
  = (Returned (true, Some (plainOptions "none")),
     snd (stage_initialize pullRequest 1%positive world0))
  /\ (exists w',
        run pullRequest 1%positive world0 = (Returned tt, w')
        /\ invoked w'
           = ["initialize"; "headCoverage"; "switchToBase"; "baseCoverage";
              "generateReportContent"; "publishReport";
              "failedTestsAnnotations"; "coverageAnnotations"])
  /\ stage_publishReport pullRequest 1%positive (plainOptions "none") false
       None world0
     = (Returned (false, None), logStage "publishReport" world0).
Proof.
  assert (stage_initialize pullRequest 1%positive world0
          = (Returned (true, Some (plainOptions "none")),
             snd (stage_initialize pullRequest 1%positive world0))) as Hinit
    by reflexivity.
  split; [exact Hinit|].
  destruct (run_stage_order pullRequest 1%positive world0 _ _ Hinit)
    as (_ & w' & Hrun & Hinvoked & _ & _ & Hpublish & _).
  split; [exists w'; split; [exact Hrun | exact Hinvoked]|].
  apply Hpublish.
Defined.

Lemma report_failure_recorded_once_witness :
  outcome (createReport reportFailsQuietly (get 1%positive world0)
             (plainOptions "none") (ext world0)) = inl "no report"
  /\ errors (get 1%positive
               (snd (reportOnwards reportFailsQuietly 1%positive
                       (plainOptions "none") true (Some headReport) world0)))
     = [mkError "generateReportContent" "no report"]
  /\ length (errors (get 1%positive
               (snd (reportOnwards reportFailsQuietly 1%positive
                       (plainOptions "none") true (Some headReport) world0))))
     = 1.
Proof.
  assert (outcome (createReport reportFailsQuietly (get 1%positive world0)
                     (plainOptions "none") (ext world0)) = inl "no report")
    as Hthrows by reflexivity.
  split; [exact Hthrows|].
  destruct (report_failure_recorded_once reportFailsQuietly 1%positive
              (plainOptions "none") true (Some headReport) world0
              "no report" Hthrows)
    as (_ & _ & _ & _ & _ & Hfinal).
  destruct Hfinal as [Herrors Hlength]; [reflexivity | reflexivity |].
  split; [exact Herrors|].
  apply Hlength; reflexivity.
Defined.

Lemma no_base_branch_skips_both_witness :
  mustSwitch pushNoFiles (plainOptions "all") = true
  /\ baseBranch pushNoFiles = inr None
  /\ isInPR pushNoFiles = false
  /\ stage_switchToBase pushNoFiles 1%positive world0
     = (Returned (false, None), logStage "switchToBase" world0)
  /\ stage_baseCoverage pushNoFiles 1%positive 2%positive
       (plainOptions "all") false
       (snd (createDataCollector (logStage "switchToBase" world0)))
     = (Returned (false, None),
        logStage "baseCoverage"
          (snd (createDataCollector (logStage "switchToBase" world0)))).
Proof.
  split; [reflexivity|]. split; [reflexivity|]. split; [reflexivity|].
  destruct (no_base_branch_skips_both pushNoFiles 1%positive
              (plainOptions "all") world0 None)
    as (Hswitch & _ & Hbase & _).
  - reflexivity.
  - reflexivity.
  - reflexivity.
  - reflexivity.
  - split; [exact Hswitch | exact Hbase].
Defined.

Lemma errors_append_only_witness :
  preserves grows (failingBody skip)
  /\ preserves grows (runStage "demo" 1%positive failingBody).
Proof.
  assert (preserves grows (failingBody skip)) as Hbody.
  { intros w r. reflexivity. }
  split; [exact Hbody|].
  destruct (errors_append_only allGood) as (_ & _ & Hstage & _).
  apply Hstage. exact Hbody.
Defined.

(** ** Runs on which the claims as worded fail *)

(** C5, as worded, fails: two runs that differ only in that collecting the
    base coverage throws; the first ends without error and unmarked, the
    second with the record of the [baseCoverage] stage on the main
    collector and the host marked failed. *)
Lemma baseCoverage_failure_fails_run :
  errors (get 1%positive (snd (run allGood 1%positive world0))) = []
  /\ hostFailure (snd (run allGood 1%positive world0)) = None
  /\ errors (get 1%positive (snd (run baseFails 1%positive world0)))
     = [mkError "baseCoverage" "boom"]
  /\ errors (get 2%positive (snd (run baseFails 1%positive world0)))
     = [mkError "collectCoverage" "no file"]
  /\ hostFailure (snd (run baseFails 1%positive world0)) = Some "failed".
Proof. vm_compute. repeat split. Qed.

(** C6, as worded, fails: two runs that both reach the final step and
    do not invoke the same stages; the first leaves [switchToBase] out. *)
Lemma stage_lists_differ :
  fst (run allGood 1%positive world0) = Returned tt
  /\ fst (run pullRequest 1%positive world0) = Returned tt
  /\ invoked (snd (run allGood 1%positive world0))
     = ["initialize"; "headCoverage"; "baseCoverage";
        "generateReportContent"; "publishReport"; "failedTestsAnnotations";
        "coverageAnnotations"]
  /\ invoked (snd (run pullRequest 1%positive world0))
     = ["initialize"; "headCoverage"; "switchToBase"; "baseCoverage";
        "generateReportContent"; "publishReport"; "failedTestsAnnotations";
        "coverageAnnotations"]
  /\ invoked (snd (run allGood 1%positive world0))
     ≠ invoked (snd (run pullRequest 1%positive world0)).
Proof. vm_compute. repeat split. discriminate. Qed.

(** C7, as worded, fails: two runs in which [createReport] throws once
    and the final error list has two records.  In the first, collecting
    the head coverage failed as well.  In the second, [createReport] is
    the only collaborator that throws: the stage of the failed-tests
    annotations reads [summaryReport!.runReport] with no report. *)
Lemma report_failure_two_errors :
  errors (get 1%positive (snd (run headAndReportFail 1%positive world0)))
  = [mkError "headCoverage" "boom";
     mkError "generateReportContent" "no report"]
  /\ errors (get 1%positive (snd (run reportFails 1%positive world0)))
     = [mkError "generateReportContent" "no report";
        mkError "failedTestsAnnotations" typeErrorUndefined]
  /\ length (errors (get 1%positive
                       (snd (run headAndReportFail 1%positive world0)))) ≠ 1
  /\ length (errors (get 1%positive
                       (snd (run reportFails 1%positive world0)))) ≠ 1.
Proof. vm_compute. repeat split; discriminate. Qed.

(** C8, as worded, fails, in two ways.  A run outside a pull request,
    with no base branch, whose options name a base coverage file: the
    switch stage is not invoked, [isSwitched] stays true, and the
    base-coverage stage completes with a base coverage, which ends up on
    the main collector.  And a run on another event whose payload has a
    pull request without a base: the read of [.base.ref] throws in the
    switch stage, which records it. *)
Lemma no_base_branch_yet_base_coverage :
  (isInPR allGood = false
   /\ baseBranch allGood = inr None
   /\ switchPhase allGood 1%positive (filesOptions "all") world0
      = (Returned true, world0)
   /\ fst (stage_baseCoverage allGood 1%positive 2%positive
             (filesOptions "all") true world0)
      = Returned (true, Some baseReport)
   /\ fst (stage_baseCoverage allGood 1%positive 2%positive
             (filesOptions "all") true world0)
      ≠ Returned (false, None)
   /\ invoked (snd (run allGood 1%positive world0))
      = ["initialize"; "headCoverage"; "baseCoverage";
         "generateReportContent"; "publishReport"; "failedTestsAnnotations";
         "coverageAnnotations"]
   /\ fields (get 1%positive (snd (run allGood 1%positive world0))) !! "base"
      = Some "75")
  /\ (isInPR bareRequest = false
      /\ baseBranch bareRequest = inl typeErrorUndefined
      /\ mustSwitch bareRequest (plainOptions "all") = true
      /\ errors (get 1%positive
                   (snd (stage_switchToBase bareRequest 1%positive world0)))
         = [mkError "switchToBase" typeErrorUndefined]
      /\ errors (get 1%positive (snd (run bareRequest 1%positive world0)))
         = [mkError "switchToBase" typeErrorUndefined]).
Proof. vm_compute. repeat split. discriminate. Qed.

(** C10.  The read [summaryReport!.runReport] of line 166 is not behind
    the flag of the report: in a run in which [createReport] throws and
    a failed test is to be annotated, [isHeadCoverageGenerated] is true,
    [isReportContentGenerated] is false and the summary report is
    undefined; the publish stage, which tests the flag of the report,
    skips, and the stage of the failed-tests annotations, which tests
    the flag of the head coverage only, reads a property of [undefined],
    throws and records it; the run is marked failed with two errors. *)
Lemma summary_read_behind_the_wrong_flag :
  fst (stage_headCoverage reportFails 1%positive (filesOptions "all") world0)
  = Returned (true, Some headReport)
  /\ fst (stage_generateReportContent reportFails 1%positive
            (filesOptions "all") world0)
     = Returned (false, None)
  /\ stage_publishReport reportFails 1%positive (filesOptions "all") false
       None world0
     = (Returned (false, None), logStage "publishReport" world0)
  /\ fst (stage_failedTestsAnnotations reportFails 1%positive
            (filesOptions "all") true (Some headReport) None world0)
     = Returned (false, None)
  /\ errors (get 1%positive
               (snd (stage_failedTestsAnnotations reportFails 1%positive
                       (filesOptions "all") true (Some headReport) None
                       world0)))
     = [mkError "failedTestsAnnotations" typeErrorUndefined]
  /\ errors (get 1%positive (snd (run reportFails 1%positive world0)))
     = [mkError "generateReportContent" "no report";
        mkError "failedTestsAnnotations" typeErrorUndefined]
  /\ hostFailure (snd (run reportFails 1%positive world0)) = Some "failed".
Proof. vm_compute. repeat split. Qed.

(** ** The further theorems at concrete runs *)

Lemma quiet_run_records_nothing_witness :
  Quiet quietPullRequest
  /\ baseBranch quietPullRequest = inr (Some "main")
  /\ errors (get 1%positive (snd (run quietPullRequest 1%positive world0)))
     = errors (get 1%positive world0)
  /\ hostFailure (snd (run quietPullRequest 1%positive world0))
     = hostFailure world0.
Proof.
  assert (Quiet quietPullRequest) as HQ.
  { split; [split|..]; repeat intro; try reflexivity;
      eexists; reflexivity. }
  split; [exact HQ|]. split; [reflexivity|].
  destruct (quiet_run_records_nothing quietPullRequest 1%positive world0
              (snd (run quietPullRequest 1%positive world0)) HQ)
    as [Hsame Hhost].
  - exists (Some "main"). reflexivity.
  - vm_compute. reflexivity.
  - split; [exact Hsame | apply Hhost; reflexivity].
Defined.

Lemma aborted_run_not_marked_witness :
  run noOptions 1%positive world0
  = (Threw "Initialization failed.", snd (run noOptions 1%positive world0))
  /\ hostFailure (snd (run noOptions 1%positive world0)) = None
  /\ errors (get 1%positive (snd (run noOptions 1%positive world0)))
     = [mkError "initialize" "bad input"].
Proof.
  assert (run noOptions 1%positive world0
          = (Threw "Initialization failed.",
             snd (run noOptions 1%positive world0))) as Hrun
    by (vm_compute; reflexivity).
  split; [exact Hrun|].
  destruct (aborted_run_not_marked noOptions 1%positive world0 _ _ Hrun)
    as (_ & _ & Hhost & _ & Herrors).
  split; [exact Hhost|].
  apply (Herrors "bad input"). reflexivity.
Defined.

Lemma failed_switch_skips_base_witness :
  switchPhase switchFails 1%positive (plainOptions "all") world0
  = (Returned false,
     update 1%positive (collectorAddError "switchToBase" "no such branch")
       (setExt ["switchBranch"] (logStage "switchToBase" world0)))
  /\ ext (snd (basePhase switchFails 1%positive (plainOptions "all") false
                 (update 1%positive
                    (collectorAddError "switchToBase" "no such branch")
                    (setExt ["switchBranch"]
                       (logStage "switchToBase" world0)))))
     = ["switchBranch"].
Proof.
  destruct (failed_switch_skips_base switchFails 1%positive
              (plainOptions "all") world0 (Some "main") "no such branch"
              ["switchBranch"])
    as (Hphase & _ & Hext & _); try reflexivity.
  split; [exact Hphase | exact Hext].
Defined.

Lemma failedTestsAnnotations_without_summary_witness :
  fst (stage_failedTestsAnnotations reportFails 1%positive
         (filesOptions "all") true (Some headReport) None world0)
  = Returned (false, None)
  /\ errors (get 1%positive
               (snd (stage_failedTestsAnnotations reportFails 1%positive
                       (filesOptions "all") true (Some headReport) None
                       world0)))
     = [mkError "failedTestsAnnotations" typeErrorUndefined].
Proof.
  rewrite (failedTestsAnnotations_without_summary reportFails 1%positive
             (filesOptions "all") (Some headReport) ["a failed test"]
             "octokit"
             ["createFailedTestsAnnotations"]
             ["createFailedTestsAnnotations"; "getOctokit"] world0);
    try reflexivity.
  - split; [reflexivity | vm_compute; reflexivity].
  - discriminate.
Defined.

Lemma run_touches_only_its_collectors_witness :
  heap (snd (run baseFails 1%positive world2)) !! 5%positive
  = heap world2 !! 5%positive
  /\ get 5%positive (snd (run baseFails 1%positive world2))
     = get 5%positive world2.
Proof.
  apply (run_touches_only_its_collectors baseFails 1%positive 5%positive
           world2).
  - discriminate.
  - eexists. vm_compute. reflexivity.
Defined.

Lemma run_records_at_most_four_witness :
  Silent worstCase
  /\ errorCount 1%positive (snd (run worstCase 1%positive world0))
     <= errorCount 1%positive world0 + 4
  /\ errorCount 1%positive (snd (run worstCase 1%positive world0)) = 4.
Proof.
  assert (Silent worstCase) as HSilent.
  { split; [intros o file c e; by destruct file | intros o c e; reflexivity]. }
  split; [exact HSilent|]. split.
  - apply (run_records_at_most_four worstCase 1%positive world0 HSilent).
  - vm_compute. reflexivity.
Defined.

Lemma runDefault_judges_its_own_errors_witness :
  runDefault allGood world2
  = (Returned tt, snd (runDefault allGood world2))
  /\ get 5%positive (snd (runDefault allGood world2)) = get 5%positive world2
  /\ (hostFailure (snd (runDefault allGood world2)) = Some "failed"
      <-> errors (get 6%positive (snd (runDefault allGood world2))) ≠ []).
Proof.
  assert (runDefault allGood world2
          = (Returned tt, snd (runDefault allGood world2))) as Hrun
    by (vm_compute; reflexivity).
  split; [exact Hrun|].
  destruct (runDefault_judges_its_own_errors allGood world2 _ Hrun)
    as (_ & Hkeep & Hverdict & _).
  split.
  - apply Hkeep. eexists. vm_compute. reflexivity.
  - apply Hverdict. reflexivity.
Defined.
